(** * p5.core.primitives3d: procedural 3D primitives

    A shallow embedding of [src/p5/core/primitives3d.py] and the proofs of
    the properties its specification states about it.

    Python [int]s are [Z].  Python numbers that may be [float]s live in an
    abstract carrier [F] with the operations the module calls on them
    (class [Num]); theorems proved over [Num] hold for every interpretation of
    those operations, IEEE doubles included.  The instance [RNum] interprets
    them as exact real arithmetic.

    Python exceptions are values of [exn]; a function that can raise returns
    a [result].  The [_draw_on_return] decorator submits the mesh to the
    renderer: decorated factories are state transformers over the list of
    meshes the renderer has received. *)

From Stdlib Require Import ZArith List Lia Lra Bool Permutation Reals.
Import ListNotations.
Local Open Scope Z_scope.

Set Implicit Arguments.

(** ** Exceptions *)

Inductive exn : Type :=
| ZeroDivisionError
| IndexError
| NameError.

Inductive result (A : Type) : Type :=
| Ok (a : A)
| Raise (e : exn).

Arguments Ok {A} a.
Arguments Raise {A} e.

Definition bind {A B : Type} (r : result A) (k : A -> result B) : result B :=
  match r with
  | Ok a => k a
  | Raise e => Raise e
  end.

Notation "x <- c ;; k" := (bind c (fun x => k))
  (at level 61, c at next level, right associativity).
Notation "' pat <- c ;; k" := (bind c (fun x => match x with pat => k end))
  (at level 61, pat pattern, c at next level, right associativity).

(** [for x in l: body] over a state [s] that the body mutates. *)
Fixpoint for_each {A S : Type} (l : list A) (s : S)
    (body : S -> A -> result S) : result S :=
  match l with
  | [] => Ok s
  | x :: l' => s' <- body s x ;; for_each l' s' body
  end.

(** [range(lo, hi)]. *)
Definition range (lo hi : Z) : list Z :=
  map (fun k => lo + Z.of_nat k) (seq 0 (Z.to_nat (hi - lo))).

(** [l[i]] for a non-negative index. *)
Definition getitem {A : Type} (l : list A) (i : Z) : result A :=
  if i <? 0 then Raise IndexError
  else match nth_error l (Z.to_nat i) with
       | Some a => Ok a
       | None => Raise IndexError
       end.

(** [len(l)]. *)
Definition len {A : Type} (l : list A) : Z := Z.of_nat (length l).

(** [a % b] on ints. *)
Definition mod_int (a b : Z) : result Z :=
  if b =? 0 then Raise ZeroDivisionError else Ok (a mod b).

(** ** Numbers *)

Class Num (F : Type) : Type := {
  of_int : Z -> F;              (* an int where a number is expected *)
  lit_0_5 : F;                  (* the literal 0.5 *)
  int_truediv : Z -> Z -> F;    (* n / d on ints, for d <> 0 *)
  fadd : F -> F -> F;
  fsub : F -> F -> F;
  fmul : F -> F -> F;
  fdiv : F -> F -> F;           (* x / y, for y <> 0 *)
  fleb : F -> F -> bool;        (* x <= y *)
  fltb : F -> F -> bool;        (* x < y *)
  is_zero : F -> bool;          (* x == 0, i.e. not bool(x) *)
  math_pi : F;
  math_sin : F -> F;
  math_cos : F -> F;
  math_atan2 : F -> F -> F
}.

Definition face : Type := (Z * Z * Z)%type.
Definition edge : Type := (Z * Z)%type.

Section Primitives.

Context {F : Type} {N : Num F}.

Definition vec3 : Type := (F * F * F)%type.

(** [n / d] where both are ints. *)
Definition truediv_int (n d : Z) : result F :=
  if d =? 0 then Raise ZeroDivisionError else Ok (int_truediv n d).

(** [x / y] where [y] may be a float. *)
Definition truediv (x y : F) : result F :=
  if is_zero y then Raise ZeroDivisionError else Ok (fdiv x y).

(** [max(x, 0)]: Python keeps the first argument unless the second is
    greater, and [0 > x] is [x < 0]. *)
Definition max_0 (x : F) : F :=
  if fltb x (of_int 0) then of_int 0 else x.

(** ** The mesh container *)

(** Modelled from the spec: [matrix.scale_transform], of the missing module
    [pmath.matrix]; a diagonal scale transform built from three axis
    extents. *)
Inductive transform : Type :=
| scale_transform (sx sy sz : F).

(** Modelled from the spec: the class [Geometry] of the missing module
    [core.geometry]; the fields this module reads and writes.  [uvs] is the
    flat list the module extends by two numbers per vertex; [matrix] is
    [None] until a factory attaches a transform. *)
Record Geometry : Type := mkGeometry {
  vertices : list vec3;
  vertex_normals : list vec3;
  uvs : list F;
  faces : list face;
  edges : list edge;
  stroke_indices : list edge;
  matrix : option transform;
  detail_x : Z;
  detail_y : Z
}.

(** Modelled from the spec: [Geometry(detail_x, detail_y)], a fresh container
    constructed with the two detail counts. *)
Definition Geometry_new (dx dy : Z) : Geometry :=
  mkGeometry [] [] [] [] [] [] None dx dy.

(** [grow g vs ns us fs]: [g] after appending [vs] to its vertices, [ns] to
    its normals, [us] to its uvs and [fs] to its faces. *)
Definition grow (g : Geometry) (vs ns : list vec3) (us : list F)
    (fs : list face) : Geometry :=
  mkGeometry (vertices g ++ vs) (vertex_normals g ++ ns) (uvs g ++ us)
    (faces g ++ fs) (edges g) (stroke_indices g) (matrix g)
    (detail_x g) (detail_y g).

(** [geom.vertices.append(p)] *)
Definition vertices_append (g : Geometry) (p : vec3) : Geometry :=
  grow g [p] [] [] [].

(** [geom.vertex_normals.append(n)] *)
Definition vertex_normals_append (g : Geometry) (n : vec3) : Geometry :=
  grow g [] [n] [] [].

(** [geom.uvs.extend([u, v])] *)
Definition uvs_extend (g : Geometry) (us : list F) : Geometry :=
  grow g [] [] us [].

(** [geom.faces.append(f)] *)
Definition faces_append (g : Geometry) (f : face) : Geometry :=
  grow g [] [] [] [f].


(** [geom.stroke_indices = l] *)
Definition set_stroke_indices (g : Geometry) (l : list edge) : Geometry :=
  mkGeometry (vertices g) (vertex_normals g) (uvs g) (faces g)
    (edges g) l (matrix g) (detail_x g) (detail_y g).

(** [geom.matrix = m] *)
Definition set_matrix (g : Geometry) (m : transform) : Geometry :=
  mkGeometry (vertices g) (vertex_normals g) (uvs g) (faces g)
    (edges g) (stroke_indices g) (Some m) (detail_x g) (detail_y g).

(** The derivations of the container's helper methods, whose bodies are not
    part of this module: which faces a grid yields, how normals are averaged,
    which edges the triangles yield and how edges are deduplicated. *)
Class Derivations : Type := {
  grid_faces : Z -> Z -> list face;
  averaged_normals : list vec3 -> list face -> list vec3;
  triangle_edges : list face -> list edge;
  unique_edges : list edge -> list edge
}.

Context {D : Derivations}.

(** Modelled from the spec: [Geometry.compute_faces], missing with
    [core.geometry]; derives [faces] from the
    [(detail_y+1) x (detail_x+1)] grid laid out in [vertices]. *)
Definition compute_faces (g : Geometry) : Geometry :=
  mkGeometry (vertices g) (vertex_normals g) (uvs g)
    (grid_faces (detail_x g) (detail_y g))
    (edges g) (stroke_indices g) (matrix g) (detail_x g) (detail_y g).

(** Modelled from the spec: [Geometry.compute_normals], missing with
    [core.geometry]; derives [vertex_normals] from [faces] when they are not
    already populated. *)
Definition compute_normals (g : Geometry) : Geometry :=
  match vertex_normals g with
  | [] =>
      mkGeometry (vertices g) (averaged_normals (vertices g) (faces g))
        (uvs g) (faces g) (edges g) (stroke_indices g) (matrix g)
        (detail_x g) (detail_y g)
  | _ :: _ => g
  end.

(** Modelled from the spec: [Geometry.make_triangle_edges], missing with
    [core.geometry]; derives the per-triangle edge list from [faces]. *)
Definition make_triangle_edges (g : Geometry) : Geometry :=
  mkGeometry (vertices g) (vertex_normals g) (uvs g) (faces g)
    (triangle_edges (faces g)) (stroke_indices g) (matrix g)
    (detail_x g) (detail_y g).

(** Modelled from the spec: [Geometry.edges_to_vertices], missing with
    [core.geometry]; deduplicates the edges into the drawable edge list. *)
Definition edges_to_vertices (g : Geometry) : Geometry :=
  mkGeometry (vertices g) (vertex_normals g) (uvs g) (faces g)
    (unique_edges (edges g)) (stroke_indices g) (matrix g)
    (detail_x g) (detail_y g).

(** ** Drawing *)

(** The renderer's state: the meshes submitted to it, oldest first. *)
Definition renderer : Type := list Geometry.

(** A factory that draws: it may raise, and otherwise returns its mesh and
    the renderer's new state. *)
Definition drawing (A : Type) : Type := renderer -> result (A * renderer).

(** Modelled from the spec: [p5.renderer.render(shape)], of the missing
    renderer; the mesh is submitted to the renderer. *)
Definition render (shape : Geometry) (r : renderer) : renderer :=
  r ++ [shape].

(** [draw_shape(shape)]: a [Geometry] is rendered and has no children to
    recurse into. *)
Definition draw_shape (shape : Geometry) (r : renderer) : renderer :=
  render shape r.

(** [_draw_on_return(func)]: run [func], draw what it returns, return it. *)
Definition _draw_on_return (func : result Geometry) : drawing Geometry :=
  fun r =>
    s <- func ;;
    Ok (s, draw_shape s r).

(** ** box *)

Definition cube_indices : list (list Z) :=
  [ [0; 4; 2; 6];
    [1; 3; 5; 7];
    [0; 1; 4; 5];
    [2; 6; 3; 7];
    [0; 2; 1; 3];
    [4; 5; 6; 7] ].

Definition box_stroke_indices : list edge :=
  [ (0, 1); (1, 3); (3, 2); (6, 7); (8, 9); (9, 11);
    (14, 15); (16, 17); (17, 19); (18, 19); (20, 21); (22, 23) ].

Definition box_func (width height depth : F) (detail_x detail_y : Z)
    : result Geometry :=
  let geom := Geometry_new detail_x detail_y in
  let geom := set_stroke_indices geom box_stroke_indices in
  geom <- for_each (range 0 (len cube_indices)) geom (fun geom i =>
    cube_index <- getitem cube_indices i ;;
    let v := i * 4 in
    geom <- for_each (range 0 4) geom (fun geom j =>
      d <- getitem cube_index j ;;
      x <- truediv_int (Z.land d 1 * 2 - 1) 2 ;;
      y <- truediv_int (Z.land d 2 - 1) 2 ;;
      z4 <- truediv_int (Z.land d 4) 2 ;;
      let z := fdiv (fsub z4 (of_int 1)) (of_int 2) in
      let octant := (x, y, z) in
      let geom := vertices_append geom octant in
      uv1 <- truediv_int (Z.land j 2) 2 ;;
      Ok (uvs_extend geom [of_int (Z.land j 1); uv1])) ;;
    let geom := faces_append geom (v, v + 1, v + 2) in
    let geom := faces_append geom (v + 2, v + 1, v + 3) in
    Ok geom) ;;
  let geom := compute_normals geom in
  let geom := make_triangle_edges geom in
  let geom := set_matrix geom (scale_transform width height depth) in
  Ok geom.

Definition box (width height depth : F) (detail_x detail_y : Z)
    : drawing Geometry :=
  _draw_on_return (box_func width height depth detail_x detail_y).

(** ** plane *)

Definition plane_func (width height : F) (detail_x detail_y : Z)
    : result Geometry :=
  let geom := Geometry_new detail_x detail_y in
  geom <- for_each (range 0 (detail_y + 1)) geom (fun geom i =>
    v <- truediv_int i detail_y ;;
    for_each (range 0 (detail_x + 1)) geom (fun geom j =>
      u <- truediv_int j detail_x ;;
      let p := (fsub u lit_0_5, fsub v lit_0_5, of_int 0) in
      let geom := vertices_append geom p in
      Ok (uvs_extend geom [u; v]))) ;;
  let geom := compute_faces geom in
  let geom := compute_normals geom in
  let geom := make_triangle_edges geom in
  let geom := edges_to_vertices geom in
  let geom := set_matrix geom (scale_transform width height (of_int 1)) in
  Ok geom.

Definition plane (width height : F) (detail_x detail_y : Z)
    : drawing Geometry :=
  _draw_on_return (plane_func width height detail_x detail_y).

(** ** ellipsoid and sphere *)

Definition ellipsoid_func (radius_x radius_y radius_z : F)
    (detail_x detail_y : Z) : result Geometry :=
  let geom := Geometry_new detail_x detail_y in
  geom <- for_each (range 0 (detail_y + 1)) geom (fun geom i =>
    v <- truediv_int i detail_y ;;
    let phi := fsub (fmul math_pi v) (fdiv math_pi (of_int 2)) in
    let cosPhi := math_cos phi in
    let sinPhi := math_sin phi in
    for_each (range 0 (detail_x + 1)) geom (fun geom j =>
      u <- truediv_int j detail_x ;;
      let theta := fmul (fmul (of_int 2) math_pi) u in
      let cosTheta := math_cos theta in
      let sinTheta := math_sin theta in
      let p := (fmul cosPhi sinTheta, sinPhi, fmul cosPhi cosTheta) in
      let geom := vertices_append geom p in
      let geom := vertex_normals_append geom p in
      Ok (uvs_extend geom [u; v]))) ;;
  let geom := compute_faces geom in
  let geom := make_triangle_edges geom in
  let geom := edges_to_vertices geom in
  let geom := set_matrix geom (scale_transform radius_x radius_y radius_z) in
  Ok geom.

Definition ellipsoid (radius_x radius_y radius_z : F)
    (detail_x detail_y : Z) : drawing Geometry :=
  _draw_on_return (ellipsoid_func radius_x radius_y radius_z detail_x detail_y).

(** [sphere] is not decorated: it returns what the decorated [ellipsoid]
    returns, which has drawn the mesh. *)
Definition sphere (radius : F) (detail_x detail_y : Z) : drawing Geometry :=
  ellipsoid radius radius radius detail_x detail_y.


(** ** truncated_cone, cylinder and cone *)

Definition truncated_cone (bottom_radius top_radius height : F)
    (detail_x detail_y : Z) (bottom_cap top_cap : bool) : result Geometry :=
  let geom := Geometry_new detail_x detail_y in

  let bottom_radius :=
    if fleb bottom_radius (of_int 0) then of_int 1 else bottom_radius in
  let top_radius := max_0 top_radius in
  let height := if fleb height (of_int 0) then bottom_radius else height in
  let detail_x := Z.max detail_x 3 in
  let detail_y := Z.max detail_y 1 in

  let start := if bottom_cap then -2 else 0 in
  let end_ := detail_y + (if top_cap then 2 else 0) in

  let slant := math_atan2 (fsub bottom_radius top_radius) height in
  let sin_slant := math_sin slant in
  let cos_slant := math_cos slant in

  geom <- for_each (range start (end_ + 1)) geom (fun geom yy =>
    v <- truediv_int yy detail_y ;;
    let y := fmul height v in
    let ring_radius :=
      fadd bottom_radius (fmul (fsub top_radius bottom_radius) v) in
    let '(y, v, ring_radius) :=
      if yy <? 0 then (of_int 0, of_int 0, bottom_radius)
      else if detail_y <? yy then (height, of_int 1, top_radius)
      else (y, v, ring_radius) in
    let ring_radius :=
      if (yy =? -2) || (yy =? detail_y + 2) then of_int 0 else ring_radius in
    let y := fsub y (fdiv height (of_int 2)) in
    for_each (range 0 detail_x) geom (fun geom ii =>
      u <- truediv_int ii detail_x ;;
      let ur := fmul (fmul (of_int 2) math_pi) u in
      let sur := math_sin ur in
      let cur := math_cos ur in
      let geom :=
        vertices_append geom (fmul sur ring_radius, y, fmul cur ring_radius) in
      let vertex_normals :=
        if yy <? 0 then (of_int 0, of_int (-1), of_int 0)
        else if (detail_y <? yy) && negb (is_zero top_radius)
        then (of_int 0, of_int 1, of_int 0)
        else (fmul sur cos_slant, sin_slant, fmul cur cos_slant) in
      let geom := vertex_normals_append geom vertex_normals in
      Ok (uvs_extend geom [u; v]))) ;;

  let start_index := 0 in
  '(geom, start_index) <-
    (if bottom_cap then
       geom <- for_each (range 0 detail_x) geom (fun geom jj =>
         nextjj <- mod_int (jj + 1) detail_x ;;
         Ok (faces_append geom
               (start_index + jj,
                start_index + detail_x + nextjj,
                start_index + detail_x + jj))) ;;
       Ok (geom, start_index + detail_x * 2)
     else Ok (geom, start_index)) ;;

  '(geom, start_index) <-
    for_each (range 0 detail_y) (geom, start_index)
      (fun '(geom, start_index) _ =>
         geom <- for_each (range 0 detail_x) geom (fun geom ii =>
           nextii <- mod_int (ii + 1) detail_x ;;
           let geom := faces_append geom
             (start_index + ii,
              start_index + nextii,
              start_index + detail_x + nextii) in
           let geom := faces_append geom
             (start_index + ii,
              start_index + detail_x + nextii,
              start_index + detail_x + ii) in
           Ok geom) ;;
         Ok (geom, start_index + detail_x)) ;;

  if top_cap then
    let start_index := start_index + detail_x in
    for_each (range 0 detail_x) geom (fun geom ii =>
      nextii <- mod_int (ii + 1) detail_x ;;
      Ok (faces_append geom
            (start_index + ii,
             start_index + nextii,
             start_index + detail_x)))
  else Ok geom.

Definition cylinder_func (radius height : F) (detail_x detail_y : Z)
    (top_cap bottom_cap : bool) : result Geometry :=
  geom <- truncated_cone (of_int 1) (of_int 1) (of_int 1)
            detail_x detail_y bottom_cap top_cap ;;
  let geom := set_matrix geom (scale_transform radius height radius) in
  let geom := make_triangle_edges geom in
  let geom := edges_to_vertices geom in
  Ok geom.

Definition cylinder (radius height : F) (detail_x detail_y : Z)
    (top_cap bottom_cap : bool) : drawing Geometry :=
  _draw_on_return
    (cylinder_func radius height detail_x detail_y top_cap bottom_cap).

Definition cone_func (radius height : F) (detail_x detail_y : Z)
    (cap : bool) : result Geometry :=
  geom <- truncated_cone (of_int 1) (of_int 0) (of_int 1)
            detail_x detail_y cap false ;;
  let geom := make_triangle_edges geom in
  let geom := edges_to_vertices geom in
  let geom := set_matrix geom (scale_transform radius height radius) in
  Ok geom.

Definition cone (radius height : F) (detail_x detail_y : Z) (cap : bool)
    : drawing Geometry :=
  _draw_on_return (cone_func radius height detail_x detail_y cap).

(** ** line3d *)



(** ** torus *)

(** The inner loop's variables [u], [cosTheta] and [sinTheta] are read after
    the loop: they hold what its last iteration assigned, and reading them
    before any iteration ran raises [NameError]. *)
Definition torus_locals : Type := option (F * F * F).

Definition torus_func (radius tube_radius : F) (detail_x detail_y : Z)
    : result Geometry :=
  tube_ratio <- truediv tube_radius radius ;;
  let geom := Geometry_new detail_x detail_y in
  '(geom, _) <-
    for_each (range 0 (detail_y + 1)) (geom, (None : torus_locals))
      (fun '(geom, locals) i =>
         v <- truediv_int i detail_y ;;
         let phi := fmul (fmul (of_int 2) math_pi) v in
         let cosPhi := math_cos phi in
         let sinPhi := math_sin phi in
         let r := fadd (of_int 1) (fmul tube_ratio cosPhi) in
         '(geom, locals) <-
           for_each (range 0 (detail_x + 1)) (geom, locals)
             (fun '(geom, _) j =>
                u <- truediv_int j detail_x ;;
                let theta := fmul (fmul (of_int 2) math_pi) u in
                let cosTheta := math_cos theta in
                let sinTheta := math_sin theta in
                let geom := vertices_append geom
                  (fmul r cosTheta, fmul r sinTheta, fmul tube_ratio sinPhi) in
                Ok (geom, Some (u, cosTheta, sinTheta))) ;;
         match locals with
         | None => Raise NameError
         | Some (u, cosTheta, sinTheta) =>
             let n := (fmul cosPhi cosTheta, fmul cosPhi sinTheta, sinPhi) in
             let geom := vertex_normals_append geom n in
             let geom := uvs_extend geom [u; v] in
             Ok (geom, locals)
         end) ;;
  let geom := compute_faces geom in
  let geom := make_triangle_edges geom in
  let geom := edges_to_vertices geom in
  let geom := set_matrix geom (scale_transform radius radius radius) in
  Ok geom.

Definition torus (radius tube_radius : F) (detail_x detail_y : Z)
    : drawing Geometry :=
  _draw_on_return (torus_func radius tube_radius detail_x detail_y).

End Primitives.

(** ** The meshes in closed form *)

Section ClosedForms.

Context {F : Type} {N : Num F}.

(** *** box: the 24 corners, their UVs and the 12 triangles *)

(** The octant position a corner code decodes to. *)
Definition octant (d : Z) : vec3 :=
  (int_truediv (Z.land d 1 * 2 - 1) 2,
   int_truediv (Z.land d 2 - 1) 2,
   fdiv (fsub (int_truediv (Z.land d 4) 2) (of_int 1)) (of_int 2)).

Definition box_vertices : list vec3 :=
  map octant (concat cube_indices).

Definition box_uvs : list F :=
  flat_map (fun _ : list Z =>
    flat_map (fun j => [of_int (Z.land j 1); int_truediv (Z.land j 2) 2])
      [0; 1; 2; 3]) cube_indices.

Definition box_faces : list face :=
  flat_map (fun i => [(i * 4, i * 4 + 1, i * 4 + 2);
                      (i * 4 + 2, i * 4 + 1, i * 4 + 3)])
    [0; 1; 2; 3; 4; 5].

(** *** The parametric grids of ellipsoid and torus *)

(** The point of the unit sphere at parameters [(u, v)]: inclination
    [phi = pi * v - pi / 2], azimuth [theta = 2 * pi * u]. *)
Definition unit_sphere_point (u v : F) : vec3 :=
  let phi := fsub (fmul math_pi v) (fdiv math_pi (of_int 2)) in
  let theta := fmul (fmul (of_int 2) math_pi) u in
  (fmul (math_cos phi) (math_sin theta),
   math_sin phi,
   fmul (math_cos phi) (math_cos theta)).

(** The samples of the [(dy+1) x (dx+1)] grid, row by row. *)
Definition grid_samples {A : Type} (dx dy : Z) (f : Z -> Z -> list A)
    : list A :=
  flat_map (fun i => flat_map (fun j => f i j) (range 0 (dx + 1)))
    (range 0 (dy + 1)).

Definition ellipsoid_vertices (dx dy : Z) : list vec3 :=
  grid_samples dx dy (fun i j =>
    [unit_sphere_point (int_truediv j dx) (int_truediv i dy)]).

Definition grid_uvs (dx dy : Z) : list F :=
  grid_samples dx dy (fun i j => [int_truediv j dx; int_truediv i dy]).

(** The vertices of the canonical plane. *)
Definition plane_vertices (dx dy : Z) : list vec3 :=
  grid_samples dx dy (fun i j =>
    [(fsub (int_truediv j dx) lit_0_5, fsub (int_truediv i dy) lit_0_5,
      of_int 0)]).

(** The point of the canonical torus of tube ratio [rho] at [(u, v)]. *)
Definition torus_point (rho u v : F) : vec3 :=
  let phi := fmul (fmul (of_int 2) math_pi) v in
  let theta := fmul (fmul (of_int 2) math_pi) u in
  let r := fadd (of_int 1) (fmul rho (math_cos phi)) in
  (fmul r (math_cos theta), fmul r (math_sin theta),
   fmul rho (math_sin phi)).

Definition torus_vertices (rho : F) (dx dy : Z) : list vec3 :=
  grid_samples dx dy (fun i j =>
    [torus_point rho (int_truediv j dx) (int_truediv i dy)]).

(** What [torus] appends once per row: a normal and a UV pair taken at the
    last azimuth sample [u = dx / dx] of the row. *)
Definition torus_row_normal (dx dy i : Z) : vec3 :=
  let phi := fmul (fmul (of_int 2) math_pi) (int_truediv i dy) in
  let theta := fmul (fmul (of_int 2) math_pi) (int_truediv dx dx) in
  (fmul (math_cos phi) (math_cos theta),
   fmul (math_cos phi) (math_sin theta),
   math_sin phi).

Definition torus_normals (dx dy : Z) : list vec3 :=
  flat_map (fun i => [torus_row_normal dx dy i]) (range 0 (dy + 1)).

Definition torus_uvs (dx dy : Z) : list F :=
  flat_map (fun i => [int_truediv dx dx; int_truediv i dy])
    (range 0 (dy + 1)).

(** *** The sanitization rules of the truncated cone *)

(** [bottom_radius <= 0] is forced to 1. *)
Definition sanitize_bottom_radius (b : F) : F :=
  if fleb b (of_int 0) then of_int 1 else b.

(** [top_radius] is clamped to [>= 0]. *)
Definition sanitize_top_radius (t : F) : F :=
  if fltb t (of_int 0) then of_int 0 else t.

(** [height <= 0] is forced to equal the (sanitized) bottom radius. *)
Definition sanitize_height (b h : F) : F :=
  if fleb h (of_int 0) then sanitize_bottom_radius b else h.

(** [detail_x] is floored to 3 and [detail_y] to 1. *)
Definition sanitize_detail_x (dx : Z) : Z := Z.max dx 3.
Definition sanitize_detail_y (dy : Z) : Z := Z.max dy 1.

(** *** The ring stack of the truncated cone

    [b], [t], [h], [dx] and [dy] are the parameters after sanitization. *)

(** The levels [yy] rings are emitted for: [-2] and [-1] for a bottom cap,
    [0 .. dy] for the body, [dy+1] and [dy+2] for a top cap. *)
Definition frustum_levels (dy : Z) (bottom_cap top_cap : bool) : list Z :=
  range (if bottom_cap then -2 else 0)
        (dy + (if top_cap then 2 else 0) + 1).

(** Height, [v] coordinate and radius of the ring at level [yy]. *)
Definition ring_y (h : F) (dy yy : Z) : F :=
  fsub (if yy <? 0 then of_int 0
        else if dy <? yy then h
        else fmul h (int_truediv yy dy))
       (fdiv h (of_int 2)).

Definition ring_v (dy yy : Z) : F :=
  if yy <? 0 then of_int 0
  else if dy <? yy then of_int 1
  else int_truediv yy dy.

Definition ring_radius (b t : F) (dy yy : Z) : F :=
  if (yy =? -2) || (yy =? dy + 2) then of_int 0
  else if yy <? 0 then b
  else if dy <? yy then t
  else fadd b (fmul (fsub t b) (int_truediv yy dy)).

(** The angle of the [ii]-th vertex of a ring. *)
Definition ring_angle (dx ii : Z) : F :=
  fmul (fmul (of_int 2) math_pi) (int_truediv ii dx).

Definition frustum_vertex (b t h : F) (dx dy yy ii : Z) : vec3 :=
  (fmul (math_sin (ring_angle dx ii)) (ring_radius b t dy yy),
   ring_y h dy yy,
   fmul (math_cos (ring_angle dx ii)) (ring_radius b t dy yy)).

Definition frustum_normal (b t h : F) (dx dy yy ii : Z) : vec3 :=
  let slant := math_atan2 (fsub b t) h in
  if yy <? 0 then (of_int 0, of_int (-1), of_int 0)
  else if (dy <? yy) && negb (is_zero t) then (of_int 0, of_int 1, of_int 0)
  else (fmul (math_sin (ring_angle dx ii)) (math_cos slant),
        math_sin slant,
        fmul (math_cos (ring_angle dx ii)) (math_cos slant)).

Definition frustum_vertices (b t h : F) (dx dy : Z) (bc tc : bool)
    : list vec3 :=
  flat_map (fun yy => flat_map (fun ii => [frustum_vertex b t h dx dy yy ii])
                        (range 0 dx))
    (frustum_levels dy bc tc).

Definition frustum_normals (b t h : F) (dx dy : Z) (bc tc : bool)
    : list vec3 :=
  flat_map (fun yy => flat_map (fun ii => [frustum_normal b t h dx dy yy ii])
                        (range 0 dx))
    (frustum_levels dy bc tc).

Definition frustum_uvs (dx dy : Z) (bc tc : bool) : list F :=
  flat_map (fun yy => flat_map (fun ii => [int_truediv ii dx; ring_v dy yy])
                        (range 0 dx))
    (frustum_levels dy bc tc).

End ClosedForms.

(** *** The triangles of the truncated cone *)

(** The bottom cap: each centre-ring vertex with a rim edge. *)
Definition bottom_cap_faces (dx : Z) : list face :=
  flat_map (fun jj => [(jj, dx + (jj + 1) mod dx, dx + jj)]) (range 0 dx).

(** One body segment between the ring starting at [s] and the next one:
    two triangles per quad. *)
Definition segment_faces (dx s : Z) : list face :=
  flat_map (fun ii => [(s + ii, s + (ii + 1) mod dx, s + dx + (ii + 1) mod dx);
                       (s + ii, s + dx + (ii + 1) mod dx, s + dx + ii)])
    (range 0 dx).

(** The [dy] body segments, the first starting at [s]. *)
Definition body_faces (dx dy s : Z) : list face :=
  flat_map (fun r => segment_faces dx (s + r * dx)) (range 0 dy).

(** The top cap: the rim ring starting at [s], fanned to the first vertex
    of the centre ring. *)
Definition top_cap_faces (dx s : Z) : list face :=
  flat_map (fun ii => [(s + ii, s + (ii + 1) mod dx, s + dx)]) (range 0 dx).

Definition frustum_faces (dx dy : Z) (bc tc : bool) : list face :=
  let s := if bc then dx * 2 else 0 in
  (if bc then bottom_cap_faces dx else [])
  ++ body_faces dx dy s
  ++ (if tc then top_cap_faces dx (s + dy * dx + dx) else []).

(** ** Default arguments *)

Definition sphere_default_detail_x : Z := 24.
Definition sphere_default_detail_y : Z := 16.
Definition torus_default_detail_x : Z := 24.
Definition torus_default_detail_y : Z := 16.

(** ** Counting *)

(** The number of UV pairs in the flat [uvs] list. *)
Definition uv_pairs {F : Type} (g : @Geometry F) : nat :=
  Nat.div (length (uvs g)) 2.

(** The number of rings the truncated cone emits for [dy] (sanitized)
    height subdivisions. *)
Definition ring_count (dy : Z) (bottom_cap top_cap : bool) : Z :=
  dy + 1 + (if bottom_cap then 2 else 0) + (if top_cap then 2 else 0).

(** Whether a triangle has a corner in the ring of [n] vertices starting at
    index [s]. *)
Definition in_ring (s n x : Z) : bool := (s <=? x) && (x <? s + n).

Definition face_touches (s n : Z) (f : face) : bool :=
  let '(a, b, c) := f in in_ring s n a || in_ring s n b || in_ring s n c.

(** The number of triangles with a corner in that ring. *)
Definition triangles_touching (fs : list face) (s n : Z) : nat :=
  length (filter (face_touches s n) fs).

(** The number of corners a triangle has in that ring. *)
Definition corners_in_ring (s n : Z) (f : face) : nat :=
  let '(a, b, c) := f in
  ((if in_ring s n a then 1 else 0) + (if in_ring s n b then 1 else 0)
   + (if in_ring s n c then 1 else 0))%nat.

(** The number of triangles with exactly [c] corners in that ring. *)
Definition triangles_with_corners (fs : list face) (s n : Z) (c : nat) : nat :=
  length (filter (fun f => Nat.eqb (corners_in_ring s n f) c) fs).

(** ** Edges at the index level *)

Definition edge_eq_dec (e e' : edge) : {e = e'} + {e <> e'}.
Proof. decide equality; apply Z.eq_dec. Defined.

(** The undirected edge between two vertex indices. *)
Definition mk_edge (a b : Z) : edge := (Z.min a b, Z.max a b).

(** The three edges of a triangle. *)
Definition face_edges (f : face) : list edge :=
  let '(a, b, c) := f in [mk_edge a b; mk_edge b c; mk_edge c a].

(** Every edge of every triangle, with repetitions. *)
Definition edge_slots (fs : list face) : list edge :=
  flat_map face_edges fs.

(** The deduplicated edges of a list of triangles. *)
Definition mesh_edges (fs : list face) : list edge :=
  nodup edge_eq_dec (edge_slots fs).

Definition has_edge (e : edge) (f : face) : bool :=
  if in_dec edge_eq_dec e (face_edges f) then true else false.

(** The number of triangles that share the edge [e]. *)
Definition triangles_sharing (fs : list face) (e : edge) : nat :=
  length (filter (has_edge e) fs).

(** [V - E + F], with [E] the number of deduplicated edges. *)
Definition euler_characteristic {F : Type} (g : @Geometry F) : Z :=
  len (vertices g) - len (mesh_edges (faces g)) + len (faces g).

(** The edges around the ring of [n] vertices that starts at index [s]. *)
Definition ring_edges (n s : Z) : list edge :=
  map (fun ii => mk_edge (s + ii) (s + (ii + 1) mod n)) (range 0 n).

(** The edges from the ring at [s] straight up to the next ring. *)
Definition rung_edges (n s : Z) : list edge :=
  map (fun ii => mk_edge (s + ii) (s + n + ii)) (range 0 n).

(** The diagonals of the quads between the ring at [s] and the next. *)
Definition diag_edges (n s : Z) : list edge :=
  map (fun ii => mk_edge (s + ii) (s + n + (ii + 1) mod n)) (range 0 n).

(** The edges from the ring at [s] to the first vertex of the next ring. *)
Definition spoke_edges (n s : Z) : list edge :=
  map (fun ii => mk_edge (s + ii) (s + n)) (range 0 n).

(** The edges of the doubly capped truncated cone, [n] vertices per ring and
    [m] body segments, that belong to one triangle: the three edges of each
    bottom-cap triangle, the first and the last body ring, and the rim of
    the top cap. *)
Definition capped_edges_once (n m : Z) : list edge :=
  diag_edges n 0 ++ ring_edges n n ++ rung_edges n 0
  ++ ring_edges n (2 * n) ++ ring_edges n ((m + 2) * n)
  ++ ring_edges n ((m + 3) * n).

(** Those that belong to two triangles: the body rings in between, the
    rungs and diagonals of the body, and the spokes of the top cap. *)
Definition capped_edges_twice (n m : Z) : list edge :=
  flat_map (fun r => ring_edges n ((r + 2) * n)) (range 1 m)
  ++ flat_map (fun r => rung_edges n ((r + 2) * n)) (range 0 m)
  ++ flat_map (fun r => diag_edges n ((r + 2) * n)) (range 0 m)
  ++ spoke_edges n ((m + 3) * n).

(** How often the edge [e] occurs in the list [l]. *)
Abbreviation mult l e := (count_occ edge_eq_dec l e).

(** The four kinds of edge between ring [j] (the ring starting at index
    [j * n]) and itself or the ring above. *)
Inductive edge_kind : Type := Ring | Rung | Diag | Spoke.

Definition edge_of (k : edge_kind) (n j ii : Z) : edge :=
  match k with
  | Ring => mk_edge (j * n + ii) (j * n + (ii + 1) mod n)
  | Rung => mk_edge (j * n + ii) (j * n + n + ii)
  | Diag => mk_edge (j * n + ii) (j * n + n + (ii + 1) mod n)
  | Spoke => mk_edge (j * n + ii) (j * n + n)
  end.

(** The [n] edges of one kind at ring [j]. *)
Definition family (k : edge_kind) (n j : Z) : list edge :=
  map (edge_of k n j) (range 0 n).

(** A spoke and a rung or diagonal of the same ring can be the same edge;
    no other two kinds can. *)
Definition compatible (k : edge_kind) (j : Z) (k' : edge_kind) (j' : Z)
    : Prop :=
  match k, k' with
  | Spoke, Rung | Spoke, Diag | Rung, Spoke | Diag, Spoke => j <> j'
  | _, _ => True
  end.

(** The families the edges of the doubly capped cone with [m] body
    segments fall into, in the order of [capped_edges_once] and
    [capped_edges_twice]. *)
Definition capped_families (m : Z) : list (edge_kind * Z) :=
  [(Diag, 0); (Ring, 1); (Rung, 0); (Ring, 2); (Ring, m + 2); (Ring, m + 3)]
  ++ map (fun r => (Ring, r + 2)) (range 1 m)
  ++ map (fun r => (Rung, r + 2)) (range 0 m)
  ++ map (fun r => (Diag, r + 2)) (range 0 m)
  ++ [(Spoke, m + 3)].

(** ** A derivation for the container's helpers *)

Section GridDerivation.

Context {F : Type} {N : Num F}.

Definition vget (vs : list vec3) (k : Z) : vec3 :=
  nth (Z.to_nat k) vs (of_int 0, of_int 0, of_int 0).

Definition vadd (p q : vec3) : vec3 :=
  let '(px, py, pz) := p in
  let '(qx, qy, qz) := q in
  (fadd px qx, fadd py qy, fadd pz qz).

Definition vsub (p q : vec3) : vec3 :=
  let '(px, py, pz) := p in
  let '(qx, qy, qz) := q in
  (fsub px qx, fsub py qy, fsub pz qz).

Definition cross (p q : vec3) : vec3 :=
  let '(px, py, pz) := p in
  let '(qx, qy, qz) := q in
  (fsub (fmul py qz) (fmul pz qy),
   fsub (fmul pz qx) (fmul px qz),
   fsub (fmul px qy) (fmul py qx)).

Definition face_normal (vs : list vec3) (f : face) : vec3 :=
  let '(a, b, c) := f in
  cross (vsub (vget vs b) (vget vs a)) (vsub (vget vs c) (vget vs a)).

Definition face_uses (k : Z) (f : face) : bool :=
  let '(a, b, c) := f in (a =? k) || (b =? k) || (c =? k).

(** Per vertex, the sum of the normals of the faces it belongs to. *)
Definition summed_normals (vs : list vec3) (fs : list face) : list vec3 :=
  map (fun k =>
         fold_left vadd (map (face_normal vs) (filter (face_uses k) fs))
           (of_int 0, of_int 0, of_int 0))
    (range 0 (len vs)).

(** Two triangles per cell of the [(dy+1) x (dx+1)] grid. *)
Definition cell_faces (dx dy : Z) : list face :=
  flat_map (fun i =>
    flat_map (fun j =>
      let a := i * (dx + 1) + j in
      let b := i * (dx + 1) + j + 1 in
      let c := (i + 1) * (dx + 1) + j + 1 in
      let d := (i + 1) * (dx + 1) + j in
      [(a, b, d); (d, b, c)]) (range 0 dx)) (range 0 dy).

(** The three sides of every triangle. *)
Definition face_sides (fs : list face) : list edge :=
  flat_map (fun f : face => let '(a, b, c) := f in [(a, b); (b, c); (c, a)]) fs.

(** Modelled from the spec: one derivation that fits what the spec says of
    the helpers of the missing [core.geometry]: two triangles per grid cell,
    normals accumulated from the faces, three edges per triangle, edges
    deduplicated. *)
#[global] Instance GridDerivations : @Derivations F := {|
  grid_faces := cell_faces;
  averaged_normals := summed_normals;
  triangle_edges := face_sides;
  unique_edges := nodup edge_eq_dec
|}.

End GridDerivation.

(** ** Exact real arithmetic *)

(** [math.atan2(y, x)] over the reals. *)
Definition Ratan2 (y x : R) : R :=
  if Rlt_dec 0 x then atan (y / x)
  else if Rlt_dec x 0 then
    if Rlt_dec y 0 then (atan (y / x) - PI)%R else (atan (y / x) + PI)%R
  else if Rlt_dec 0 y then (PI / 2)%R
  else if Rlt_dec y 0 then (- (PI / 2))%R
  else 0%R.

#[global] Instance RNum : Num R := {|
  of_int := IZR;
  lit_0_5 := (1 / 2)%R;
  int_truediv := fun n d => (IZR n / IZR d)%R;
  fadd := Rplus;
  fsub := Rminus;
  fmul := Rmult;
  fdiv := Rdiv;
  fleb := fun x y => if Rle_dec x y then true else false;
  fltb := fun x y => if Rlt_dec x y then true else false;
  is_zero := fun x => if Req_dec_T x 0 then true else false;
  math_pi := PI;
  math_sin := sin;
  math_cos := cos;
  math_atan2 := Ratan2
|}.

(** * Properties *)

(** ** Loops *)

Lemma range_cons (lo hi : Z) : lo < hi -> range lo hi = lo :: range (lo + 1) hi.
Proof.
  intros H. unfold range.
  replace (Z.to_nat (hi - lo)) with (S (Z.to_nat (hi - (lo + 1)))) by lia.
  cbn [seq map]. f_equal; [lia|].
  rewrite <- seq_shift, map_map. apply map_ext. intros k. lia.
Qed.

Lemma range_snoc (lo hi : Z) : lo <= hi -> range lo (hi + 1) = range lo hi ++ [hi].
Proof.
  intros H. unfold range.
  replace (Z.to_nat (hi + 1 - lo)) with (Z.to_nat (hi - lo) + 1)%nat by lia.
  rewrite seq_app, map_app. cbn. f_equal. f_equal. lia.
Qed.

Lemma in_range (lo hi x : Z) : In x (range lo hi) <-> lo <= x < hi.
Proof.
  unfold range. rewrite in_map_iff. split.
  - intros (k & <- & Hk). apply in_seq in Hk. lia.
  - intros H. exists (Z.to_nat (x - lo)). split; [lia|]. apply in_seq. lia.
Qed.

Lemma length_range (lo hi : Z) : length (range lo hi) = Z.to_nat (hi - lo).
Proof. unfold range. now rewrite length_map, length_seq. Qed.

Lemma length_range_0 (n : Z) : length (range 0 n) = Z.to_nat n.
Proof. rewrite length_range. f_equal. lia. Qed.

Lemma NoDup_map_on {A B : Type} (f : A -> B) (l : list A) :
  (forall x y, In x l -> In y l -> f x = f y -> x = y) ->
  NoDup l -> NoDup (map f l).
Proof.
  intros Hinj Hl. induction Hl as [|a l Ha Hl IH]; cbn; constructor.
  - rewrite in_map_iff. intros (y & Hy & Hin).
    apply Ha. rewrite (Hinj a y); auto; [now left | now right].
  - apply IH. intros x y Hx Hy. apply Hinj; now right.
Qed.

Lemma NoDup_range (lo hi : Z) : NoDup (range lo hi).
Proof.
  unfold range. apply NoDup_map_on; [|apply seq_NoDup].
  intros a b _ _. lia.
Qed.

Lemma range_shift (lo hi k : Z) :
  range (lo + k) (hi + k) = map (fun x => x + k) (range lo hi).
Proof.
  unfold range. rewrite map_map.
  replace (hi + k - (lo + k)) with (hi - lo) by lia.
  apply map_ext. intros a. lia.
Qed.

Lemma nth_error_range (lo hi : Z) (k : nat) :
  (k < Z.to_nat (hi - lo))%nat ->
  nth_error (range lo hi) k = Some (lo + Z.of_nat k).
Proof.
  intros H. unfold range.
  rewrite nth_error_map, nth_error_seq.
  destruct (Nat.ltb_spec k (Z.to_nat (hi - lo))); [reflexivity | lia].
Qed.

Section Growing.

Context {F : Type} {N : Num F}.

Lemma grow_nil (g : @Geometry F) : grow g [] [] [] [] = g.
Proof. destruct g. unfold grow. cbn. now rewrite !app_nil_r. Qed.

Lemma grow_grow (g : @Geometry F) vs ns us fs vs' ns' us' fs' :
  grow (grow g vs ns us fs) vs' ns' us' fs'
  = grow g (vs ++ vs') (ns ++ ns') (us ++ us') (fs ++ fs').
Proof. unfold grow. cbn. now rewrite !app_assoc. Qed.

(** A loop whose every iteration appends to the mesh appends, in all, the
    concatenation of what the iterations append. *)
Lemma for_each_grow {A : Type} (l : list A) (g : @Geometry F) body
    (dv dn : A -> list vec3) (du : A -> list F) (df : A -> list face) :
  (forall g' x, In x l -> body g' x = Ok (grow g' (dv x) (dn x) (du x) (df x))) ->
  for_each l g body
  = Ok (grow g (flat_map dv l) (flat_map dn l) (flat_map du l) (flat_map df l)).
Proof.
  revert g. induction l as [|x l IH]; intros g H; cbn [for_each flat_map].
  - now rewrite grow_nil.
  - rewrite H by now left. cbn [bind].
    rewrite IH by (intros; apply H; now right).
    now rewrite grow_grow.
Qed.

Lemma truediv_int_ok (n d : Z) : d <> 0 -> truediv_int n d = Ok (int_truediv n d).
Proof. intros H. unfold truediv_int. destruct (Z.eqb_spec d 0); [lia | reflexivity]. Qed.

Lemma mod_int_ok (a b : Z) : b <> 0 -> mod_int a b = Ok (a mod b).
Proof. intros H. unfold mod_int. destruct (Z.eqb_spec b 0); [lia | reflexivity]. Qed.

End Growing.

(** ** The truncated cone in closed form *)

Lemma flat_map_map {A B C : Type} (f : B -> list C) (g : A -> B) (l : list A) :
  flat_map f (map g l) = flat_map (fun x => f (g x)) l.
Proof. induction l as [|x l IH]; cbn; [reflexivity | now rewrite IH]. Qed.

Lemma flat_map_singleton {A B : Type} (f : A -> B) (l : list A) :
  flat_map (fun x => [f x]) l = map f l.
Proof. induction l as [|x l IH]; cbn; [reflexivity | now rewrite IH]. Qed.

Lemma body_faces_seq (dx dy s : Z) :
  body_faces dx dy s
  = flat_map (fun k => segment_faces dx (s + Z.of_nat k * dx))
      (seq 0 (Z.to_nat dy)).
Proof.
  unfold body_faces, range. rewrite flat_map_map, Z.sub_0_r.
  apply flat_map_ext. intros k. reflexivity.
Qed.

Section Frustum.

Context {F : Type} {N : Num F}.

(** The ring loop. *)
Lemma ring_loop (b t h : F) (dx dy : Z) (bc tc : bool) (g : @Geometry F) :
  dx <> 0 -> dy <> 0 ->
  for_each (range (if bc then -2 else 0) (dy + (if tc then 2 else 0) + 1)) g
    (fun geom yy =>
       v <- truediv_int yy dy ;;
       let y := fmul h v in
       let ring_radius := fadd b (fmul (fsub t b) v) in
       let '(y, v, ring_radius) :=
         if yy <? 0 then (of_int 0, of_int 0, b)
         else if dy <? yy then (h, of_int 1, t)
         else (y, v, ring_radius) in
       let ring_radius :=
         if (yy =? -2) || (yy =? dy + 2) then of_int 0 else ring_radius in
       let y := fsub y (fdiv h (of_int 2)) in
       for_each (range 0 dx) geom (fun geom ii =>
         u <- truediv_int ii dx ;;
         let ur := fmul (fmul (of_int 2) math_pi) u in
         let sur := math_sin ur in
         let cur := math_cos ur in
         let geom :=
           vertices_append geom (fmul sur ring_radius, y, fmul cur ring_radius) in
         let vertex_normals :=
           if yy <? 0 then (of_int 0, of_int (-1), of_int 0)
           else if (dy <? yy) && negb (is_zero t)
           then (of_int 0, of_int 1, of_int 0)
           else (fmul sur (math_cos (math_atan2 (fsub b t) h)),
                 math_sin (math_atan2 (fsub b t) h),
                 fmul cur (math_cos (math_atan2 (fsub b t) h))) in
         let geom := vertex_normals_append geom vertex_normals in
         Ok (uvs_extend geom [u; v])))
  = Ok (grow g (frustum_vertices b t h dx dy bc tc)
          (frustum_normals b t h dx dy bc tc) (frustum_uvs dx dy bc tc) []).
Proof.
  intros Hdx Hdy.
  unfold frustum_vertices, frustum_normals, frustum_uvs, frustum_levels.
  erewrite for_each_grow with (df := fun _ => []).
  - f_equal. f_equal. induction (range _ _); [reflexivity | assumption].
  - intros g' yy _. rewrite truediv_int_ok by assumption. cbn [bind].
    unfold frustum_vertex, frustum_normal, ring_y, ring_v, ring_radius,
      ring_angle.
    destruct (yy <? 0), (dy <? yy), ((yy =? -2) || (yy =? dy + 2));
      cbv beta iota zeta.
    all: erewrite for_each_grow with (df := fun _ => []);
      [ f_equal; f_equal; induction (range _ _); [reflexivity | assumption]
      | intros g'' ii _; rewrite truediv_int_ok by assumption; cbn [bind];
        unfold vertices_append, vertex_normals_append, uvs_extend;
        rewrite !grow_grow; cbn [app]; reflexivity ].
Qed.

Lemma flat_map_nil {A B : Type} (l : list A) :
  flat_map (fun _ : A => @nil B) l = [].
Proof. induction l; [reflexivity | assumption]. Qed.

(** A loop that only appends faces. *)
Lemma for_each_faces {A : Type} (l : list A) (g : @Geometry F) body
    (df : A -> list face) :
  (forall g' x, In x l -> body g' x = Ok (grow g' [] [] [] (df x))) ->
  for_each l g body = Ok (grow g [] [] [] (flat_map df l)).
Proof.
  intros H.
  rewrite for_each_grow
    with (dv := fun _ => []) (dn := fun _ => []) (du := fun _ => []) (df := df)
    by assumption.
  now rewrite !flat_map_nil.
Qed.

(** The bottom-cap loop. *)
Lemma bottom_cap_loop (dx : Z) (g : @Geometry F) :
  dx <> 0 ->
  for_each (range 0 dx) g (fun geom jj =>
    nextjj <- mod_int (jj + 1) dx ;;
    Ok (faces_append geom (0 + jj, 0 + dx + nextjj, 0 + dx + jj)))
  = Ok (grow g [] [] [] (bottom_cap_faces dx)).
Proof.
  intros Hdx. unfold bottom_cap_faces.
  apply for_each_faces. intros g' jj _.
  rewrite mod_int_ok by assumption. reflexivity.
Qed.

(** One pass of the body loop's inner loop. *)
Lemma segment_loop (dx s : Z) (g : @Geometry F) :
  dx <> 0 ->
  for_each (range 0 dx) g (fun geom ii =>
    nextii <- mod_int (ii + 1) dx ;;
    let geom := faces_append geom (s + ii, s + nextii, s + dx + nextii) in
    let geom := faces_append geom (s + ii, s + dx + nextii, s + dx + ii) in
    Ok geom)
  = Ok (grow g [] [] [] (segment_faces dx s)).
Proof.
  intros Hdx. unfold segment_faces.
  apply for_each_faces. intros g' ii _.
  rewrite mod_int_ok by assumption. cbn [bind].
  unfold faces_append. now rewrite grow_grow.
Qed.

(** The body loop: its variable is unused, so what it appends depends on
    the number of iterations only. *)
Lemma body_loop {A : Type} (l : list A) (dx s : Z) (g : @Geometry F) :
  dx <> 0 ->
  for_each l (g, s)
    (fun '(geom, start_index) _ =>
       geom <- for_each (range 0 dx) geom (fun geom ii =>
         nextii <- mod_int (ii + 1) dx ;;
         let geom := faces_append geom
           (start_index + ii, start_index + nextii,
            start_index + dx + nextii) in
         let geom := faces_append geom
           (start_index + ii, start_index + dx + nextii,
            start_index + dx + ii) in
         Ok geom) ;;
       Ok (geom, start_index + dx))
  = Ok (grow g [] [] []
          (flat_map (fun k => segment_faces dx (s + Z.of_nat k * dx))
             (seq 0 (length l))),
        s + len l * dx).
Proof.
  intros Hdx. revert g s.
  induction l as [|x l IH]; intros g s; cbn [for_each length seq flat_map].
  - rewrite grow_nil. unfold len. cbn. f_equal. f_equal. lia.
  - rewrite segment_loop by assumption. cbn [bind].
    rewrite IH, grow_grow. cbn [app]. f_equal. f_equal.
    + f_equal. f_equal; [f_equal; lia|].
      rewrite <- seq_shift, flat_map_map.
      apply flat_map_ext. intros k. f_equal. lia.
    + unfold len. cbn [length]. lia.
Qed.

(** The top-cap loop. *)
Lemma top_cap_loop (dx s : Z) (g : @Geometry F) :
  dx <> 0 ->
  for_each (range 0 dx) g (fun geom ii =>
    nextii <- mod_int (ii + 1) dx ;;
    Ok (faces_append geom (s + ii, s + nextii, s + dx)))
  = Ok (grow g [] [] [] (top_cap_faces dx s)).
Proof.
  intros Hdx. unfold top_cap_faces.
  apply for_each_faces. intros g' ii _.
  rewrite mod_int_ok by assumption. reflexivity.
Qed.

(** [truncated_cone] never raises: it returns the ring stack and the
    triangles of the sanitized parameters, in a container that was
    constructed with the raw detail counts. *)
Lemma truncated_cone_eq (b t h : F) (dx dy : Z) (bc tc : bool) :
  truncated_cone b t h dx dy bc tc
  = Ok (grow (Geometry_new dx dy)
          (frustum_vertices (sanitize_bottom_radius b) (sanitize_top_radius t)
             (sanitize_height b h) (sanitize_detail_x dx)
             (sanitize_detail_y dy) bc tc)
          (frustum_normals (sanitize_bottom_radius b) (sanitize_top_radius t)
             (sanitize_height b h) (sanitize_detail_x dx)
             (sanitize_detail_y dy) bc tc)
          (frustum_uvs (sanitize_detail_x dx) (sanitize_detail_y dy) bc tc)
          (frustum_faces (sanitize_detail_x dx) (sanitize_detail_y dy) bc tc)).
Proof.
  assert (Hdx : sanitize_detail_x dx <> 0) by (unfold sanitize_detail_x; lia).
  assert (Hdy : sanitize_detail_y dy <> 0) by (unfold sanitize_detail_y; lia).
  unfold truncated_cone.
  fold (sanitize_detail_x dx) (sanitize_detail_y dy) (sanitize_bottom_radius b).
  fold (sanitize_height b h). fold (max_0 t).
  change (max_0 t) with (sanitize_top_radius t).
  cbv zeta.
  rewrite ring_loop by assumption. cbn [bind].
  unfold frustum_faces.
  destruct bc.
  - rewrite bottom_cap_loop by assumption. cbn [bind].
    rewrite body_loop by assumption. cbn [bind].
    rewrite !grow_grow, length_range, body_faces_seq. cbn [app].
    replace (len (range 0 (sanitize_detail_y dy))) with (sanitize_detail_y dy)
      by (unfold len; rewrite length_range; unfold sanitize_detail_y; lia).
    rewrite Z.sub_0_r.
    destruct tc.
    + rewrite top_cap_loop by assumption.
      rewrite grow_grow. cbn [app]. rewrite !app_nil_r.
      rewrite !Z.add_0_l, <- app_assoc. reflexivity.
    + rewrite !app_nil_r, !Z.add_0_l. reflexivity.
  - cbn [bind].
    rewrite body_loop by assumption. cbn [bind].
    rewrite length_range, body_faces_seq. cbn [app].
    replace (len (range 0 (sanitize_detail_y dy))) with (sanitize_detail_y dy)
      by (unfold len; rewrite length_range; unfold sanitize_detail_y; lia).
    rewrite Z.sub_0_r.
    destruct tc.
    + rewrite top_cap_loop by assumption.
      rewrite !grow_grow. cbn [app]. rewrite !app_nil_r.
      reflexivity.
    + rewrite grow_grow, !app_nil_r. reflexivity.
Qed.

End Frustum.

(** ** Results of the drawing factories *)

Section Factories.

Context {F : Type} {N : Num F} {D : @Derivations F}.

Lemma draw_on_return_ok (func : result (@Geometry F)) (g : Geometry)
    (r : renderer) :
  func = Ok g -> _draw_on_return func r = Ok (g, r ++ [g]).
Proof. intros ->. reflexivity. Qed.

Lemma length_flat_map_const {A B : Type} (f : A -> list B) (l : list A) (k : nat) :
  (forall x, In x l -> length (f x) = k) ->
  length (flat_map f l) = (length l * k)%nat.
Proof.
  induction l as [|x l IH]; intros H; cbn; [reflexivity|].
  rewrite length_app, H, IH by (try (now left); intros; apply H; now right).
  lia.
Qed.

Lemma length_frustum_levels (dy : Z) (bc tc : bool) :
  1 <= dy ->
  length (frustum_levels dy bc tc) = Z.to_nat (ring_count dy bc tc).
Proof.
  intros H. unfold frustum_levels, ring_count. rewrite length_range.
  destruct bc, tc; lia.
Qed.

Lemma length_frustum_vertices (b t h : F) (dx dy : Z) (bc tc : bool) :
  0 <= dx -> 1 <= dy ->
  len (frustum_vertices b t h dx dy bc tc) = ring_count dy bc tc * dx.
Proof.
  intros Hdx Hdy. unfold len, frustum_vertices.
  rewrite length_flat_map_const with (k := Z.to_nat dx).
  - rewrite length_frustum_levels by assumption.
    unfold ring_count. destruct bc, tc; lia.
  - intros yy _. rewrite flat_map_singleton, length_map. apply length_range_0.
Qed.

Lemma length_frustum_normals (b t h : F) (dx dy : Z) (bc tc : bool) :
  0 <= dx -> 1 <= dy ->
  len (frustum_normals b t h dx dy bc tc) = ring_count dy bc tc * dx.
Proof.
  intros Hdx Hdy. unfold len, frustum_normals.
  rewrite length_flat_map_const with (k := Z.to_nat dx).
  - rewrite length_frustum_levels by assumption.
    unfold ring_count. destruct bc, tc; lia.
  - intros yy _. rewrite flat_map_singleton, length_map. apply length_range_0.
Qed.

Lemma length_frustum_uvs (dx dy : Z) (bc tc : bool) :
  0 <= dx -> 1 <= dy ->
  len (frustum_uvs (F := F) dx dy bc tc) = 2 * (ring_count dy bc tc * dx).
Proof.
  intros Hdx Hdy. unfold len, frustum_uvs.
  rewrite length_flat_map_const with (k := (2 * Z.to_nat dx)%nat).
  - rewrite length_frustum_levels by assumption.
    unfold ring_count. destruct bc, tc; lia.
  - intros yy _.
    rewrite length_flat_map_const with (k := 2%nat) by reflexivity.
    rewrite length_range_0. lia.
Qed.

(** *** C4 *)

(** C4. [truncated_cone] raises for no input.  It returns a mesh, and the
    mesh is the ring stack and the triangles of the sanitized parameters:
    a bottom radius [<= 0] replaced by 1, the top radius clamped to [>= 0],
    a height [<= 0] replaced by the sanitized bottom radius, [detail_x]
    floored to 3 and [detail_y] floored to 1. *)
Theorem truncated_cone_sanitizes (b t h : F) (dx dy : Z) (bc tc : bool) :
  let b' := if fleb b (of_int 0) then of_int 1 else b in
  let t' := if fltb t (of_int 0) then of_int 0 else t in
  let h' := if fleb h (of_int 0) then b' else h in
  let dx' := Z.max dx 3 in
  let dy' := Z.max dy 1 in
  exists g : Geometry,
    truncated_cone b t h dx dy bc tc = Ok g
    /\ vertices g = frustum_vertices b' t' h' dx' dy' bc tc
    /\ vertex_normals g = frustum_normals b' t' h' dx' dy' bc tc
    /\ uvs g = frustum_uvs dx' dy' bc tc
    /\ faces g = frustum_faces dx' dy' bc tc
    /\ 3 <= dx' /\ 1 <= dy'
    /\ len (vertices g) = ring_count dy' bc tc * dx'.
Proof.
  intros b' t' h' dx' dy'.
  eexists. split; [apply truncated_cone_eq|].
  cbn [vertices vertex_normals uvs faces grow Geometry_new app].
  repeat split; try reflexivity; try (subst dx' dy'; lia).
  apply length_frustum_vertices; subst dx' dy'; lia.
Qed.

(** *** C5 *)

(** C5. A bottom radius [b <= 0] yields the mesh of bottom radius 1: the
    two calls return the same container, so the same vertices, normals, UVs
    and faces. *)
Theorem truncated_cone_nonpositive_bottom (b t h : F) (dx dy : Z)
    (bc tc : bool) :
  fleb b (of_int 0) = true ->
  exists g g1 : Geometry,
    truncated_cone b t h dx dy bc tc = Ok g
    /\ truncated_cone (of_int 1) t h dx dy bc tc = Ok g1
    /\ vertices g = vertices g1
    /\ vertex_normals g = vertex_normals g1
    /\ uvs g = uvs g1
    /\ faces g = faces g1
    /\ g = g1.
Proof.
  intros Hb.
  assert (Hs : sanitize_bottom_radius b = sanitize_bottom_radius (of_int 1)).
  { unfold sanitize_bottom_radius. rewrite Hb.
    destruct (fleb (of_int 1) (of_int 0)); reflexivity. }
  assert (Hh : sanitize_height b h = sanitize_height (of_int 1) h).
  { unfold sanitize_height. now rewrite Hs. }
  do 2 eexists. split; [apply truncated_cone_eq|].
  split; [apply truncated_cone_eq|].
  rewrite Hs, Hh. repeat split; reflexivity.
Qed.

(** *** C9 *)

Lemma cylinder_func_eq (radius height : F) (dx dy : Z) (tc bc : bool) :
  cylinder_func radius height dx dy tc bc
  = Ok (edges_to_vertices (make_triangle_edges (set_matrix
          (grow (Geometry_new dx dy)
             (frustum_vertices (of_int 1) (sanitize_top_radius (of_int 1))
                (of_int 1) (Z.max dx 3) (Z.max dy 1) bc tc)
             (frustum_normals (of_int 1) (sanitize_top_radius (of_int 1))
                (of_int 1) (Z.max dx 3) (Z.max dy 1) bc tc)
             (frustum_uvs (Z.max dx 3) (Z.max dy 1) bc tc)
             (frustum_faces (Z.max dx 3) (Z.max dy 1) bc tc))
          (scale_transform radius height radius)))).
Proof.
  unfold cylinder_func. rewrite truncated_cone_eq. cbn [bind].
  unfold sanitize_height, sanitize_bottom_radius, sanitize_top_radius,
    sanitize_detail_x, sanitize_detail_y.
  destruct (fleb (of_int 1) (of_int 0)); reflexivity.
Qed.

Lemma cone_func_eq (radius height : F) (dx dy : Z) (cap : bool) :
  cone_func radius height dx dy cap
  = Ok (set_matrix (edges_to_vertices (make_triangle_edges
          (grow (Geometry_new dx dy)
             (frustum_vertices (of_int 1) (of_int 0) (of_int 1)
                (Z.max dx 3) (Z.max dy 1) cap false)
             (frustum_normals (of_int 1) (of_int 0) (of_int 1)
                (Z.max dx 3) (Z.max dy 1) cap false)
             (frustum_uvs (Z.max dx 3) (Z.max dy 1) cap false)
             (frustum_faces (Z.max dx 3) (Z.max dy 1) cap false))))
          (scale_transform radius height radius)).
Proof.
  unfold cone_func. rewrite truncated_cone_eq. cbn [bind].
  unfold sanitize_height, sanitize_bottom_radius, sanitize_top_radius,
    sanitize_detail_x, sanitize_detail_y.
  destruct (fleb (of_int 1) (of_int 0)), (fltb (of_int 0) (of_int 0));
    reflexivity.
Qed.

(** C9. The mesh [truncated_cone] returns stores the caller's raw
    [detail_x] and [detail_y], while its rings are laid out with the floored
    counts: [ring_count (max detail_y 1)] rings of [max detail_x 3] vertices.
    The stored fields agree with the floored ones exactly when
    [detail_x >= 3], respectively [detail_y >= 1].  [cylinder] and [cone]
    return meshes with the same fields and the same ring layout. *)
Theorem truncated_cone_stores_raw_detail (b t h radius height : F)
    (dx dy : Z) (bc tc : bool) (r : renderer) :
  exists g gcyl gcone : Geometry,
    truncated_cone b t h dx dy bc tc = Ok g
    /\ detail_x g = dx /\ detail_y g = dy
    /\ len (vertices g) = ring_count (Z.max dy 1) bc tc * Z.max dx 3
    /\ (detail_x g =? Z.max dx 3) = (3 <=? dx)
    /\ (detail_y g =? Z.max dy 1) = (1 <=? dy)
    /\ cylinder radius height dx dy tc bc r = Ok (gcyl, r ++ [gcyl])
    /\ detail_x gcyl = dx /\ detail_y gcyl = dy
    /\ len (vertices gcyl) = ring_count (Z.max dy 1) bc tc * Z.max dx 3
    /\ cone radius height dx dy bc r = Ok (gcone, r ++ [gcone])
    /\ detail_x gcone = dx /\ detail_y gcone = dy
    /\ len (vertices gcone) = ring_count (Z.max dy 1) bc false * Z.max dx 3.
Proof.
  do 3 eexists.
  split; [apply truncated_cone_eq|].
  cbn [detail_x detail_y vertices grow Geometry_new app].
  split; [reflexivity|]. split; [reflexivity|].
  split; [apply length_frustum_vertices; unfold sanitize_detail_x,
            sanitize_detail_y; lia|].
  split; [destruct (Z.eqb_spec dx (Z.max dx 3)), (Z.leb_spec 3 dx); lia|].
  split; [destruct (Z.eqb_spec dy (Z.max dy 1)), (Z.leb_spec 1 dy); lia|].
  split; [apply draw_on_return_ok, cylinder_func_eq|].
  cbn [detail_x detail_y vertices grow Geometry_new app edges_to_vertices
         make_triangle_edges set_matrix].
  split; [reflexivity|]. split; [reflexivity|].
  split; [apply length_frustum_vertices; lia|].
  split; [apply draw_on_return_ok, cone_func_eq|].
  cbn [detail_x detail_y vertices grow Geometry_new app edges_to_vertices
         make_triangle_edges set_matrix].
  split; [reflexivity|]. split; [reflexivity|].
  apply length_frustum_vertices; lia.
Qed.

(** *** C6 and C10 *)

Lemma box_func_eq (w h d : F) (dx dy : Z) :
  box_func w h d dx dy
  = Ok (set_matrix (make_triangle_edges (compute_normals
          (mkGeometry box_vertices [] box_uvs box_faces []
             box_stroke_indices None dx dy)))
          (scale_transform w h d)).
Proof. reflexivity. Qed.

(** C6. Whatever the width, height and depth, [box] returns the same 24
    vertices, 24 UV pairs (48 numbers), 12 triangles and 12 stroke index
    pairs: the corners of [box_vertices], [box_uvs], [box_faces] and
    [box_stroke_indices], none of which mentions a dimension. *)
Theorem box_fixed_counts (w h d : F) (dx dy : Z) (r : renderer) :
  exists g : Geometry,
    box w h d dx dy r = Ok (g, r ++ [g])
    /\ vertices g = box_vertices
    /\ uvs g = box_uvs
    /\ faces g = box_faces
    /\ stroke_indices g = box_stroke_indices
    /\ length (vertices g) = 24%nat
    /\ length (uvs g) = 48%nat /\ uv_pairs g = 24%nat
    /\ length (faces g) = 12%nat
    /\ length (stroke_indices g) = 12%nat.
Proof.
  eexists. split; [apply draw_on_return_ok, box_func_eq|].
  repeat split; reflexivity.
Qed.

(** C10. The detail arguments of [box] do not reach its geometry: any two
    pairs of detail values give the same vertices, UVs, faces and stroke
    indices. *)
Theorem box_ignores_detail (w h d : F) (dx1 dy1 dx2 dy2 : Z) (r : renderer) :
  exists g1 g2 : Geometry,
    box w h d dx1 dy1 r = Ok (g1, r ++ [g1])
    /\ box w h d dx2 dy2 r = Ok (g2, r ++ [g2])
    /\ vertices g1 = vertices g2
    /\ uvs g1 = uvs g2
    /\ faces g1 = faces g2
    /\ stroke_indices g1 = stroke_indices g2.
Proof.
  do 2 eexists.
  split; [apply draw_on_return_ok, box_func_eq|].
  split; [apply draw_on_return_ok, box_func_eq|].
  repeat split; reflexivity.
Qed.

(** *** C7 and C8 *)

Lemma ellipsoid_func_eq (rx ry rz : F) (dx dy : Z) :
  dx <> 0 -> dy <> 0 ->
  ellipsoid_func rx ry rz dx dy
  = Ok (set_matrix (edges_to_vertices (make_triangle_edges (compute_faces
          (grow (Geometry_new dx dy) (ellipsoid_vertices dx dy)
             (ellipsoid_vertices dx dy) (grid_uvs dx dy) []))))
          (scale_transform rx ry rz)).
Proof.
  intros Hdx Hdy. unfold ellipsoid_func.
  pose (pt := fun i j => [unit_sphere_point (int_truediv j dx) (int_truediv i dy)]).
  pose (uv := fun i j => [int_truediv j dx; int_truediv i dy]).
  rewrite for_each_grow
    with (dv := fun i => flat_map (pt i) (range 0 (dx + 1)))
         (dn := fun i => flat_map (pt i) (range 0 (dx + 1)))
         (du := fun i => flat_map (uv i) (range 0 (dx + 1)))
         (df := fun _ => []).
  - cbn [bind]. rewrite flat_map_nil. reflexivity.
  - intros g' i _. rewrite truediv_int_ok by assumption. cbn [bind].
    rewrite for_each_grow
      with (dv := pt i) (dn := pt i) (du := uv i) (df := fun _ => []).
    + rewrite flat_map_nil. reflexivity.
    + intros g'' j _. rewrite truediv_int_ok by assumption. cbn [bind].
      unfold vertices_append, vertex_normals_append, uvs_extend.
      rewrite !grow_grow. cbn [app]. reflexivity.
Qed.

Lemma nth_error_flat_map_rows {A B : Type} (f : A -> list B) (l : list A)
    (n k j : nat) (x : A) :
  (forall y, In y l -> length (f y) = n) ->
  nth_error l k = Some x -> (j < n)%nat ->
  nth_error (flat_map f l) (k * n + j) = nth_error (f x) j.
Proof.
  revert k. induction l as [|a l IH]; intros k Hlen Hk Hj.
  - destruct k; discriminate.
  - cbn [flat_map]. destruct k as [|k]; cbn in Hk.
    + injection Hk as ->. cbn. apply nth_error_app1.
      rewrite Hlen by now left. assumption.
    + rewrite nth_error_app2 by (rewrite Hlen by (now left); lia).
      rewrite Hlen by now left.
      replace (S k * n + j - n)%nat with (k * n + j)%nat by lia.
      apply IH; auto. intros y Hy. apply Hlen. now right.
Qed.

Lemma length_grid_samples {A : Type} (dx dy : Z) (f : Z -> Z -> list A)
    (k : nat) :
  0 <= dx -> 0 <= dy -> (forall i j, length (f i j) = k) ->
  length (grid_samples dx dy f) = (Z.to_nat ((dx + 1) * (dy + 1)) * k)%nat.
Proof.
  intros Hdx Hdy Hk. unfold grid_samples.
  rewrite length_flat_map_const with (k := (Z.to_nat (dx + 1) * k)%nat).
  - rewrite length_range_0. nia.
  - intros i _. rewrite length_flat_map_const with (k := k) by auto.
    now rewrite length_range_0.
Qed.

Lemma nth_error_grid_samples {A : Type} (dx dy : Z) (f : Z -> Z -> A)
    (i j : Z) :
  0 <= i <= dy -> 0 <= j <= dx ->
  nth_error (grid_samples dx dy (fun i j => [f i j]))
    (Z.to_nat (i * (dx + 1) + j))
  = Some (f i j).
Proof.
  intros Hi Hj. unfold grid_samples.
  replace (Z.to_nat (i * (dx + 1) + j))
    with (Z.to_nat i * Z.to_nat (dx + 1) + Z.to_nat j)%nat by nia.
  rewrite nth_error_flat_map_rows with (x := i).
  - rewrite flat_map_singleton, nth_error_map, nth_error_range by lia.
    cbn. do 2 f_equal. lia.
  - intros y _. rewrite flat_map_singleton, length_map. apply length_range_0.
  - rewrite nth_error_range by lia. f_equal. lia.
  - lia.
Qed.

(** C7. For [dx >= 1] and [dy >= 1], [ellipsoid] returns a mesh with
    [(dx+1) * (dy+1)] vertices and as many normals; the normals are the
    vertices, position by position; and the vertex of grid cell [(i, j)],
    at index [i * (dx+1) + j], is the unit-sphere point
    [(cos phi * sin theta, sin phi, cos phi * cos theta)] at
    [u = j / dx], [v = i / dy], with [phi = pi * v - pi / 2] and
    [theta = 2 * pi * u]. *)
Theorem ellipsoid_grid (rx ry rz : F) (dx dy : Z) (r : renderer) :
  1 <= dx -> 1 <= dy ->
  exists g : Geometry,
    ellipsoid rx ry rz dx dy r = Ok (g, r ++ [g])
    /\ len (vertices g) = (dx + 1) * (dy + 1)
    /\ len (vertex_normals g) = (dx + 1) * (dy + 1)
    /\ vertex_normals g = vertices g
    /\ (forall k, nth_error (vertex_normals g) k = nth_error (vertices g) k)
    /\ (forall i j, 0 <= i <= dy -> 0 <= j <= dx ->
          let u := int_truediv j dx in
          let v := int_truediv i dy in
          let phi := fsub (fmul math_pi v) (fdiv math_pi (of_int 2)) in
          let theta := fmul (fmul (of_int 2) math_pi) u in
          nth_error (vertices g) (Z.to_nat (i * (dx + 1) + j))
          = Some (fmul (math_cos phi) (math_sin theta),
                  math_sin phi,
                  fmul (math_cos phi) (math_cos theta))).
Proof.
  intros Hdx Hdy. eexists.
  split; [apply draw_on_return_ok, ellipsoid_func_eq; lia|].
  cbn [vertices vertex_normals grow Geometry_new app set_matrix
         edges_to_vertices make_triangle_edges compute_faces].
  assert (Hlen : len (ellipsoid_vertices dx dy) = (dx + 1) * (dy + 1)).
  { unfold len, ellipsoid_vertices.
    rewrite length_grid_samples with (k := 1%nat) by (reflexivity || lia).
    lia. }
  repeat split; try assumption.
  intros i j Hi Hj. cbv zeta.
  unfold ellipsoid_vertices.
  rewrite nth_error_grid_samples
    with (f := fun i j => unit_sphere_point (int_truediv j dx) (int_truediv i dy))
    by assumption.
  reflexivity.
Qed.

(** C8. [sphere] is [ellipsoid] with three equal radii: the two calls
    return the same result from every renderer state, and the call with
    the default detail, [sphere(50)], is [ellipsoid(50, 50, 50, 24, 16)]:
    a mesh of [25 * 17] vertices. *)
Theorem sphere_is_ellipsoid (radius : F) (dx dy : Z) (r : renderer) :
  sphere radius dx dy r = ellipsoid radius radius radius dx dy r
  /\ sphere (of_int 50) sphere_default_detail_x sphere_default_detail_y r
     = ellipsoid (of_int 50) (of_int 50) (of_int 50) 24 16 r
  /\ exists g : Geometry,
       sphere (of_int 50) sphere_default_detail_x sphere_default_detail_y r
       = Ok (g, r ++ [g])
       /\ ellipsoid (of_int 50) (of_int 50) (of_int 50) 24 16 r
          = Ok (g, r ++ [g])
       /\ len (vertices g) = 25 * 17.
Proof.
  split; [reflexivity|]. split; [reflexivity|].
  destruct (ellipsoid_grid (of_int 50) (of_int 50) (of_int 50) r
              (dx := 24) (dy := 16))
    as (g & Hg & Hlen & _); [lia | lia |].
  exists g. repeat split; assumption.
Qed.

(** *** C1: the torus *)

Lemma last_cons_default {A : Type} (l : list A) (x d : A) :
  last (x :: l) d = last l x.
Proof.
  revert x d. induction l as [|y l IH]; intros x d; [reflexivity|].
  change (last (x :: y :: l) d) with (last (y :: l) d).
  now rewrite !IH.
Qed.

(** A loop over a mesh and a second variable that each iteration
    overwrites: the mesh grows as in [for_each_grow], and the variable holds
    what the last iteration assigned. *)
Lemma for_each_grow_aux {A X : Type} (l : list A) (g : @Geometry F) (a : X)
    body (dv dn : A -> list vec3) (du : A -> list F) (df : A -> list face)
    (la : A -> X) :
  (forall g' a' x, In x l ->
     body (g', a') x = Ok (grow g' (dv x) (dn x) (du x) (df x), la x)) ->
  for_each l (g, a) body
  = Ok (grow g (flat_map dv l) (flat_map dn l) (flat_map du l) (flat_map df l),
        last (map la l) a).
Proof.
  revert g a. induction l as [|x l IH]; intros g a H;
    cbn [for_each flat_map map].
  - now rewrite grow_nil.
  - rewrite H by now left. cbn [bind].
    rewrite IH by (intros; apply H; now right).
    now rewrite grow_grow, last_cons_default.
Qed.

Lemma torus_func_eq (radius tube_radius : F) (dx dy : Z) :
  is_zero radius = false -> 1 <= dx -> dy <> 0 ->
  torus_func radius tube_radius dx dy
  = Ok (set_matrix (edges_to_vertices (make_triangle_edges (compute_faces
          (grow (Geometry_new dx dy)
             (torus_vertices (fdiv tube_radius radius) dx dy)
             (torus_normals dx dy) (torus_uvs dx dy) []))))
          (scale_transform radius radius radius)).
Proof.
  intros Hr Hdx Hdy. unfold torus_func, truediv. rewrite Hr. cbn [bind].
  set (rho := fdiv tube_radius radius).
  pose (pt := fun i j =>
    [torus_point rho (int_truediv j dx) (int_truediv i dy)]).
  pose (loc := fun j : Z =>
    let u := int_truediv j dx in
    let theta := fmul (fmul (of_int 2) math_pi) u in
    Some (u, math_cos theta, math_sin theta)).
  rewrite for_each_grow_aux
    with (dv := fun i => flat_map (pt i) (range 0 (dx + 1)))
         (dn := fun i => [torus_row_normal dx dy i])
         (du := fun i => [int_truediv dx dx; int_truediv i dy])
         (df := fun _ => [])
         (la := fun _ => loc dx).
  - cbn [bind]. rewrite flat_map_nil. reflexivity.
  - intros g' a' i _. rewrite truediv_int_ok by assumption. cbn [bind].
    rewrite for_each_grow_aux
      with (dv := pt i) (dn := fun _ => []) (du := fun _ => [])
           (df := fun _ => []) (la := loc).
    + cbn [bind].
      assert (Hlast : last (map loc (range 0 (dx + 1))) a' = loc dx).
      { rewrite range_snoc, map_app by lia. cbn [map]. apply last_last. }
      rewrite Hlast, !flat_map_nil. unfold loc. cbv zeta.
      unfold vertex_normals_append, uvs_extend. rewrite !grow_grow.
      cbn [app]. rewrite !app_nil_r. reflexivity.
    + intros g'' a'' j _. rewrite truediv_int_ok by lia. cbn [bind].
      reflexivity.
Qed.

Lemma torus_counts (radius tube_radius : F) (dx dy : Z) (r : renderer) :
  is_zero radius = false -> 1 <= dx -> 1 <= dy ->
  exists g : Geometry,
    torus radius tube_radius dx dy r = Ok (g, r ++ [g])
    /\ len (vertices g) = (dx + 1) * (dy + 1)
    /\ len (vertex_normals g) = dy + 1
    /\ len (uvs g) = 2 * (dy + 1).
Proof.
  intros Hr Hdx Hdy. eexists.
  split; [apply draw_on_return_ok, torus_func_eq; (assumption || lia)|].
  cbn [vertices vertex_normals uvs grow Geometry_new app set_matrix
         edges_to_vertices make_triangle_edges compute_faces].
  unfold len, torus_vertices, torus_normals, torus_uvs.
  rewrite length_grid_samples with (k := 1%nat) by (reflexivity || lia).
  rewrite length_flat_map_const with (k := 1%nat) by reflexivity.
  rewrite length_flat_map_const with (k := 2%nat) by reflexivity.
  rewrite length_range_0. lia.
Qed.

(** *** The factories that keep the UV and normal counts

    [torus] is the only factory whose UV pairs and normals fall short of
    its vertices.  What [averaged_normals] yields for [box] and [plane] is
    not this module's to decide. *)

Lemma uv_pairs_of_len (g : @Geometry F) (k : Z) :
  0 <= k -> len (vertices g) = k -> len (uvs g) = 2 * k ->
  uv_pairs g = length (vertices g).
Proof.
  unfold len, uv_pairs. intros Hk Hv Hu.
  replace (length (uvs g)) with (length (vertices g) * 2)%nat by lia.
  apply Nat.div_mul. discriminate.
Qed.

Lemma box_uv_count (w h d : F) (dx dy : Z) (r : renderer) :
  exists g : Geometry,
    box w h d dx dy r = Ok (g, r ++ [g])
    /\ uv_pairs g = length (vertices g).
Proof.
  eexists. split; [apply draw_on_return_ok, box_func_eq|]. reflexivity.
Qed.

Lemma plane_func_eq (w h : F) (dx dy : Z) :
  dx <> 0 -> dy <> 0 ->
  plane_func w h dx dy
  = Ok (set_matrix (edges_to_vertices (make_triangle_edges (compute_normals
          (compute_faces
             (grow (Geometry_new dx dy) (plane_vertices dx dy) []
                (grid_uvs dx dy) [])))))
          (scale_transform w h (of_int 1))).
Proof.
  intros Hdx Hdy. unfold plane_func.
  pose (pt := fun i j : Z =>
    [(fsub (int_truediv j dx) lit_0_5, fsub (int_truediv i dy) lit_0_5,
      of_int 0)]).
  pose (uv := fun i j => [int_truediv j dx; int_truediv i dy]).
  rewrite for_each_grow
    with (dv := fun i => flat_map (pt i) (range 0 (dx + 1)))
         (dn := fun _ => [])
         (du := fun i => flat_map (uv i) (range 0 (dx + 1)))
         (df := fun _ => []).
  - cbn [bind]. rewrite !flat_map_nil. reflexivity.
  - intros g' i _. rewrite truediv_int_ok by assumption. cbn [bind].
    rewrite for_each_grow
      with (dv := pt i) (dn := fun _ => []) (du := uv i) (df := fun _ => []).
    + rewrite !flat_map_nil. reflexivity.
    + intros g'' j _. rewrite truediv_int_ok by assumption. cbn [bind].
      unfold vertices_append, uvs_extend.
      rewrite !grow_grow. cbn [app]. reflexivity.
Qed.

Lemma len_grid_samples {A : Type} (dx dy : Z) (f : Z -> Z -> list A) (k : nat) :
  0 <= dx -> 0 <= dy -> (forall i j, length (f i j) = k) ->
  len (grid_samples dx dy f) = (dx + 1) * (dy + 1) * Z.of_nat k.
Proof.
  intros Hdx Hdy Hk. unfold len.
  rewrite length_grid_samples with (k := k) by assumption. nia.
Qed.

Lemma plane_uv_count (w h : F) (dx dy : Z) (r : renderer) :
  1 <= dx -> 1 <= dy ->
  exists g : Geometry,
    plane w h dx dy r = Ok (g, r ++ [g])
    /\ uv_pairs g = length (vertices g).
Proof.
  intros Hdx Hdy. eexists.
  split; [apply draw_on_return_ok, plane_func_eq; lia|].
  apply uv_pairs_of_len with (k := (dx + 1) * (dy + 1)); [nia | |];
    unfold compute_normals;
    cbn [vertices vertex_normals uvs grow Geometry_new app set_matrix
           edges_to_vertices make_triangle_edges compute_faces];
    unfold plane_vertices, grid_uvs.
  - rewrite len_grid_samples with (k := 1%nat) by (reflexivity || lia). lia.
  - rewrite len_grid_samples with (k := 2%nat) by (reflexivity || lia). lia.
Qed.

Lemma ellipsoid_uv_normal_count (rx ry rz : F) (dx dy : Z) (r : renderer) :
  1 <= dx -> 1 <= dy ->
  exists g : Geometry,
    ellipsoid rx ry rz dx dy r = Ok (g, r ++ [g])
    /\ uv_pairs g = length (vertices g)
    /\ length (vertex_normals g) = length (vertices g).
Proof.
  intros Hdx Hdy. eexists.
  split; [apply draw_on_return_ok, ellipsoid_func_eq; lia|].
  split; [|reflexivity].
  apply uv_pairs_of_len with (k := (dx + 1) * (dy + 1)); [nia | |];
    cbn [vertices uvs grow Geometry_new app set_matrix
           edges_to_vertices make_triangle_edges compute_faces];
    unfold ellipsoid_vertices, grid_uvs.
  - rewrite len_grid_samples with (k := 1%nat) by (reflexivity || lia). lia.
  - rewrite len_grid_samples with (k := 2%nat) by (reflexivity || lia). lia.
Qed.

Lemma sphere_uv_normal_count (radius : F) (dx dy : Z) (r : renderer) :
  1 <= dx -> 1 <= dy ->
  exists g : Geometry,
    sphere radius dx dy r = Ok (g, r ++ [g])
    /\ uv_pairs g = length (vertices g)
    /\ length (vertex_normals g) = length (vertices g).
Proof. apply ellipsoid_uv_normal_count. Qed.

Lemma frustum_uv_normal_count (b t h : F) (dx dy : Z) (bc tc : bool)
    (g : @Geometry F) :
  3 <= dx -> 1 <= dy ->
  vertices g = frustum_vertices b t h dx dy bc tc ->
  vertex_normals g = frustum_normals b t h dx dy bc tc ->
  uvs g = frustum_uvs dx dy bc tc ->
  uv_pairs g = length (vertices g)
  /\ length (vertex_normals g) = length (vertices g).
Proof.
  intros Hdx Hdy Hv Hn Hu.
  pose proof (length_frustum_vertices b t h bc tc (dx := dx) (dy := dy)
                ltac:(lia) Hdy) as Lv.
  pose proof (length_frustum_normals b t h bc tc (dx := dx) (dy := dy)
                ltac:(lia) Hdy) as Ln.
  pose proof (length_frustum_uvs bc tc (dx := dx) (dy := dy)
                ltac:(lia) Hdy) as Lu.
  rewrite <- Hv in Lv. rewrite <- Hn in Ln. rewrite <- Hu in Lu.
  split.
  - apply uv_pairs_of_len with (k := ring_count dy bc tc * dx);
      try assumption.
    unfold ring_count. destruct bc, tc; nia.
  - unfold len in Lv, Ln. lia.
Qed.

Lemma cylinder_uv_normal_count (radius height : F) (dx dy : Z)
    (tc bc : bool) (r : renderer) :
  exists g : Geometry,
    cylinder radius height dx dy tc bc r = Ok (g, r ++ [g])
    /\ uv_pairs g = length (vertices g)
    /\ length (vertex_normals g) = length (vertices g).
Proof.
  eexists. split; [apply draw_on_return_ok, cylinder_func_eq|].
  eapply frustum_uv_normal_count with (dx := Z.max dx 3) (dy := Z.max dy 1);
    try reflexivity; lia.
Qed.

Lemma cone_uv_normal_count (radius height : F) (dx dy : Z) (cap : bool)
    (r : renderer) :
  exists g : Geometry,
    cone radius height dx dy cap r = Ok (g, r ++ [g])
    /\ uv_pairs g = length (vertices g)
    /\ length (vertex_normals g) = length (vertices g).
Proof.
  eexists. split; [apply draw_on_return_ok, cone_func_eq|].
  eapply frustum_uv_normal_count with (dx := Z.max dx 3) (dy := Z.max dy 1);
    try reflexivity; lia.
Qed.

End Factories.

(** ** The triangles of the truncated cone *)

(** The triangles of [truncated_cone(1, 1, 1, 3, 1, True, True)], as the
    three face loops append them. *)
Example frustum_faces_3_1_capped :
  frustum_faces 3 1 true true
  = [ (0, 4, 3); (1, 5, 4); (2, 3, 5);
      (6, 7, 10); (6, 10, 9); (7, 8, 11); (7, 11, 10); (8, 6, 9); (8, 9, 11);
      (12, 13, 15); (13, 14, 15); (14, 12, 15) ].
Proof. reflexivity. Qed.

(** The triangles of [truncated_cone(1, 0, 1, 3, 1, True, False)]. *)
Example frustum_faces_3_1_cone :
  frustum_faces 3 1 true false
  = [ (0, 4, 3); (1, 5, 4); (2, 3, 5);
      (6, 7, 10); (6, 10, 9); (7, 8, 11); (7, 11, 10); (8, 6, 9); (8, 9, 11) ].
Proof. reflexivity. Qed.

Lemma filter_all {A : Type} (p : A -> bool) (l : list A) :
  (forall x, In x l -> p x = true) -> filter p l = l.
Proof.
  induction l as [|x l IH]; intros H; cbn; [reflexivity|].
  rewrite H by now left. f_equal. apply IH. intros; apply H; now right.
Qed.

Lemma filter_none {A : Type} (p : A -> bool) (l : list A) :
  (forall x, In x l -> p x = false) -> filter p l = [].
Proof.
  induction l as [|x l IH]; intros H; cbn; [reflexivity|].
  rewrite H by now left. apply IH. intros; apply H; now right.
Qed.

Lemma next_bound (n ii : Z) : 0 < n -> 0 <= (ii + 1) mod n < n.
Proof. intros H. apply Z.mod_pos_bound. assumption. Qed.

(** The successor on a ring of [n] vertices. *)
Lemma next_cases (n ii : Z) :
  0 <= ii < n ->
  (ii < n - 1 /\ (ii + 1) mod n = ii + 1)
  \/ (ii = n - 1 /\ (ii + 1) mod n = 0).
Proof.
  intros H. destruct (Z.eq_dec ii (n - 1)) as [->|Hne].
  - right. split; [reflexivity|].
    replace (n - 1 + 1) with n by lia. apply Z.mod_same. lia.
  - left. split; [lia|]. apply Z.mod_small. lia.
Qed.

Lemma in_bottom_cap_faces (n : Z) (f : face) :
  In f (bottom_cap_faces n) <->
  exists jj, 0 <= jj < n /\ f = (jj, n + (jj + 1) mod n, n + jj).
Proof.
  unfold bottom_cap_faces. rewrite in_flat_map. split.
  - intros (jj & Hjj & [<-|[]]). apply in_range in Hjj. eauto.
  - intros (jj & Hjj & ->). exists jj. rewrite in_range. split; [lia | now left].
Qed.

Lemma in_segment_faces (n s : Z) (f : face) :
  In f (segment_faces n s) <->
  exists ii, 0 <= ii < n
    /\ (f = (s + ii, s + (ii + 1) mod n, s + n + (ii + 1) mod n)
        \/ f = (s + ii, s + n + (ii + 1) mod n, s + n + ii)).
Proof.
  unfold segment_faces. rewrite in_flat_map. split.
  - intros (ii & Hii & [<-|[<-|[]]]); apply in_range in Hii; eauto.
  - intros (ii & Hii & [->| ->]); exists ii; rewrite in_range;
      (split; [lia|]); [now left | right; now left].
Qed.

Lemma in_body_faces (n m s : Z) (f : face) :
  In f (body_faces n m s) <->
  exists r, 0 <= r < m /\ In f (segment_faces n (s + r * n)).
Proof.
  unfold body_faces. rewrite in_flat_map. split.
  - intros (r & Hr & Hf). apply in_range in Hr. eauto.
  - intros (r & Hr & Hf). exists r. rewrite in_range. split; [lia | assumption].
Qed.

Lemma in_top_cap_faces (n s : Z) (f : face) :
  In f (top_cap_faces n s) <->
  exists ii, 0 <= ii < n /\ f = (s + ii, s + (ii + 1) mod n, s + n).
Proof.
  unfold top_cap_faces. rewrite in_flat_map. split.
  - intros (ii & Hii & [<-|[]]). apply in_range in Hii. eauto.
  - intros (ii & Hii & ->). exists ii. rewrite in_range. split; [lia | now left].
Qed.

Lemma length_bottom_cap_faces (n : Z) :
  length (bottom_cap_faces n) = Z.to_nat n.
Proof.
  unfold bottom_cap_faces.
  rewrite length_flat_map_const with (k := 1%nat) by reflexivity.
  rewrite length_range_0. lia.
Qed.

Lemma length_segment_faces (n s : Z) :
  length (segment_faces n s) = (2 * Z.to_nat n)%nat.
Proof.
  unfold segment_faces.
  rewrite length_flat_map_const with (k := 2%nat) by reflexivity.
  rewrite length_range_0. lia.
Qed.

Lemma length_body_faces (n m s : Z) :
  0 <= n -> 0 <= m ->
  length (body_faces n m s) = (2 * Z.to_nat (n * m))%nat.
Proof.
  intros Hn Hm. unfold body_faces.
  rewrite length_flat_map_const with (k := (2 * Z.to_nat n)%nat)
    by (intros; apply length_segment_faces).
  rewrite length_range_0. nia.
Qed.

Lemma length_top_cap_faces (n s : Z) :
  length (top_cap_faces n s) = Z.to_nat n.
Proof.
  unfold top_cap_faces.
  rewrite length_flat_map_const with (k := 1%nat) by reflexivity.
  rewrite length_range_0. lia.
Qed.

Lemma body_faces_snoc (n m s : Z) :
  0 <= m ->
  body_faces n (m + 1) s = body_faces n m s ++ segment_faces n (s + m * n).
Proof.
  intros Hm. unfold body_faces.
  rewrite range_snoc, flat_map_app by lia. cbn [flat_map].
  now rewrite app_nil_r.
Qed.

(** The triangles of a capped cone that touch its top ring are the
    [2 * n] triangles of the last body segment. *)
Lemma cone_top_ring_triangles (n m : Z) :
  3 <= n -> 1 <= m ->
  triangles_touching (frustum_faces n m true false) ((m + 2) * n) n
  = Z.to_nat (2 * n).
Proof.
  intros Hn Hm. unfold triangles_touching, frustum_faces.
  rewrite app_nil_r, filter_app.
  assert (Hbody : body_faces n m (n * 2)
                  = body_faces n (m - 1) (n * 2)
                    ++ segment_faces n (n * 2 + (m - 1) * n)).
  { rewrite <- body_faces_snoc by lia. f_equal. lia. }
  rewrite Hbody, filter_app.
  rewrite filter_none, filter_none, filter_all.
  - cbn [app]. rewrite length_segment_faces. lia.
  - intros f Hf. apply in_segment_faces in Hf as (ii & Hii & Hf).
    pose proof (next_bound ii (n := n) ltac:(lia)) as Hnext.
    unfold face_touches, in_ring.
    destruct Hf as [-> | ->];
      repeat match goal with
             | |- context [?a <=? ?b] => destruct (Z.leb_spec a b)
             | |- context [?a <? ?b] => destruct (Z.ltb_spec a b)
             end; cbn; try reflexivity; nia.
  - intros f Hf. apply in_body_faces in Hf as (r & Hr & Hf).
    apply in_segment_faces in Hf as (ii & Hii & Hf).
    pose proof (next_bound ii (n := n) ltac:(lia)) as Hnext.
    unfold face_touches, in_ring.
    destruct Hf as [-> | ->];
      repeat match goal with
             | |- context [?a <=? ?b] => destruct (Z.leb_spec a b)
             | |- context [?a <? ?b] => destruct (Z.ltb_spec a b)
             end; cbn; try reflexivity; nia.
  - intros f Hf. apply in_bottom_cap_faces in Hf as (jj & Hjj & ->).
    pose proof (next_bound jj (n := n) ltac:(lia)) as Hnext.
    unfold face_touches, in_ring.
    repeat match goal with
           | |- context [?a <=? ?b] => destruct (Z.leb_spec a b)
           | |- context [?a <? ?b] => destruct (Z.ltb_spec a b)
           end; cbn; try reflexivity; nia.
Qed.

Lemma length_filter_flat_map_const {A B : Type} (p : B -> bool)
    (f : A -> list B) (l : list A) (k : nat) :
  (forall x, In x l -> length (filter p (f x)) = k) ->
  length (filter p (flat_map f l)) = (length l * k)%nat.
Proof.
  induction l as [|x l IH]; intros H; cbn [flat_map]; [reflexivity|].
  rewrite filter_app, length_app, H, IH
    by (try (now left); intros; apply H; now right).
  cbn [length]. lia.
Qed.

Ltac decide_bounds :=
  repeat match goal with
         | |- context [?a <=? ?b] => destruct (Z.leb_spec a b)
         | |- context [?a <? ?b] => destruct (Z.ltb_spec a b)
         end.

(** Of the triangles of a capped cone, [n] have one corner in the top ring
    and [n] have two: the first and the second triangle of every quad of
    the last body segment. *)
Lemma cone_top_ring_corners (n m : Z) (c : nat) :
  3 <= n -> 1 <= m -> (1 <= c <= 2)%nat ->
  triangles_with_corners (frustum_faces n m true false) ((m + 2) * n) n c
  = Z.to_nat n.
Proof.
  intros Hn Hm Hc. unfold triangles_with_corners, frustum_faces.
  rewrite app_nil_r, filter_app.
  assert (Hbody : body_faces n m (n * 2)
                  = body_faces n (m - 1) (n * 2)
                    ++ segment_faces n (n * 2 + (m - 1) * n)).
  { rewrite <- body_faces_snoc by lia. f_equal. lia. }
  rewrite Hbody, filter_app.
  rewrite filter_none, filter_none.
  - cbn [app]. unfold segment_faces.
    rewrite length_filter_flat_map_const with (k := 1%nat).
    + rewrite length_range_0. lia.
    + intros ii Hii. apply in_range in Hii.
      pose proof (next_bound ii (n := n) ltac:(lia)) as Hnext.
      assert (Hc' : c = 1%nat \/ c = 2%nat) by lia.
      cbn [filter corners_in_ring]. unfold in_ring.
      destruct Hc' as [-> | ->]; decide_bounds; cbn; try reflexivity; nia.
  - intros f Hf. apply in_body_faces in Hf as (r & Hr & Hf).
    apply in_segment_faces in Hf as (ii & Hii & Hf).
    pose proof (next_bound ii (n := n) ltac:(lia)) as Hnext.
    unfold corners_in_ring, in_ring.
    destruct c as [|[|[|c]]]; try lia;
      destruct Hf as [-> | ->]; decide_bounds; cbn; try reflexivity; nia.
  - intros f Hf. apply in_bottom_cap_faces in Hf as (jj & Hjj & ->).
    pose proof (next_bound jj (n := n) ltac:(lia)) as Hnext.
    unfold corners_in_ring, in_ring.
    destruct c as [|[|[|c]]]; try lia;
      decide_bounds; cbn; try reflexivity; nia.
Qed.

Section ConeApex.

Context {F : Type} {N : Num F}.

(** The vertex [k] of the ring at position [p] of the stack. *)
Lemma nth_error_frustum_vertices (b t h : F) (n m : Z) (bc tc : bool)
    (p k : Z) :
  1 <= m -> 0 <= p < ring_count m bc tc -> 0 <= k < n ->
  nth_error (frustum_vertices b t h n m bc tc) (Z.to_nat (p * n + k))
  = Some (frustum_vertex b t h n m ((if bc then -2 else 0) + p) k).
Proof.
  intros Hm Hp Hk. unfold frustum_vertices, frustum_levels.
  replace (Z.to_nat (p * n + k))
    with (Z.to_nat p * Z.to_nat n + Z.to_nat k)%nat by nia.
  rewrite nth_error_flat_map_rows
    with (x := (if bc then -2 else 0) + p).
  - rewrite flat_map_singleton, nth_error_map, nth_error_range by lia.
    cbn. do 2 f_equal. lia.
  - intros y _. rewrite flat_map_singleton, length_map. apply length_range_0.
  - rewrite nth_error_range; [f_equal; lia|].
    unfold ring_count in Hp. destruct bc, tc; lia.
  - lia.
Qed.

Context {D : @Derivations F}.

(** The capped cone: [dy + 3] rings and no top-cap ring, a top ring of
    radius [1 + (0 - 1) * (dy / dy)], and [2 * dx] triangles touching it. *)
Lemma cone_mesh (radius height : F) (dx dy : Z) (r : renderer) :
  3 <= dx -> 1 <= dy ->
  exists g : Geometry,
    cone radius height dx dy true r = Ok (g, r ++ [g])
    /\ len (vertices g) = (dy + 3) * dx
    /\ (forall k, 0 <= k < dx ->
          nth_error (vertices g) (Z.to_nat ((dy + 2) * dx + k))
          = Some (frustum_vertex (of_int 1) (of_int 0) (of_int 1) dx dy dy k))
    /\ triangles_touching (faces g) ((dy + 2) * dx) dx = Z.to_nat (2 * dx)
    /\ triangles_with_corners (faces g) ((dy + 2) * dx) dx 1 = Z.to_nat dx
    /\ triangles_with_corners (faces g) ((dy + 2) * dx) dx 2 = Z.to_nat dx.
Proof.
  intros Hdx Hdy. eexists.
  split; [apply draw_on_return_ok, cone_func_eq|].
  cbn [vertices faces grow Geometry_new app set_matrix
         edges_to_vertices make_triangle_edges].
  replace (Z.max dx 3) with dx by lia.
  replace (Z.max dy 1) with dy by lia.
  split; [|split; [|split; [|split]]].
  - rewrite length_frustum_vertices by lia. unfold ring_count. lia.
  - intros k Hk.
    rewrite nth_error_frustum_vertices by (unfold ring_count; lia).
    do 2 f_equal. lia.
  - apply cone_top_ring_triangles; assumption.
  - apply cone_top_ring_corners; lia.
  - apply cone_top_ring_corners; lia.
Qed.

Lemma frustum_vertex_cone_top (dx dy k : Z) :
  1 <= dy ->
  frustum_vertex (of_int 1) (of_int 0) (of_int 1) dx dy dy k
  = (fmul (math_sin (fmul (fmul (of_int 2) math_pi) (int_truediv k dx)))
       (fadd (of_int 1)
          (fmul (fsub (of_int 0) (of_int 1)) (int_truediv dy dy))),
     fsub (fmul (of_int 1) (int_truediv dy dy)) (fdiv (of_int 1) (of_int 2)),
     fmul (math_cos (fmul (fmul (of_int 2) math_pi) (int_truediv k dx)))
       (fadd (of_int 1)
          (fmul (fsub (of_int 0) (of_int 1)) (int_truediv dy dy)))).
Proof.
  intros Hdy. unfold frustum_vertex, ring_radius, ring_y, ring_angle.
  destruct (Z.eqb_spec dy (-2)); [lia|].
  destruct (Z.eqb_spec dy (dy + 2)); [lia|].
  destruct (Z.ltb_spec dy 0); [lia|].
  destruct (Z.ltb_spec dy dy); [lia|].
  reflexivity.
Qed.

End ConeApex.

(** Over the reals the top ring of the cone has radius 0 and height 1/2. *)
Lemma cone_top_vertex_real (dx dy k : Z) :
  1 <= dy ->
  frustum_vertex (N := RNum) (of_int 1) (of_int 0) (of_int 1) dx dy dy k
  = (0, 1 / 2, 0)%R.
Proof.
  intros Hdy. rewrite frustum_vertex_cone_top by assumption. cbn.
  assert (Hne : IZR dy <> 0%R) by (apply not_0_IZR; lia).
  replace (1 + (0 - 1) * (IZR dy / IZR dy))%R with 0%R by (field; assumption).
  replace (1 * (IZR dy / IZR dy) - 1 / 2)%R with (1 / 2)%R
    by (field; assumption).
  now rewrite !Rmult_0_r.
Qed.

(** C3, amended.  For [detail_x >= 3] and [detail_y >= 1],
    [cone(..., cap=True)] emits [detail_y + 3] rings of [detail_x] vertices:
    two for the bottom cap, [detail_y + 1] for the body, and no top-cap rim
    or centre ring.  Its top ring is [detail_x] separate vertices on a ring
    of radius [1 + (0 - 1) * (detail_y / detail_y)]; exactly
    [2 * detail_x] triangles have a corner in it, the two triangles of
    every quad of the last body segment: [detail_x] of them with one
    corner in the top ring and [detail_x] with two.  In exact real
    arithmetic that radius is 0 and every vertex of the top ring is the
    apex [(0, 1/2, 0)]. *)
Theorem cone_apex_ring (dx dy : Z) :
  3 <= dx -> 1 <= dy ->
  (forall (F : Type) (N : Num F) (D : @Derivations F) (radius height : F)
          (r : renderer),
     exists g : Geometry,
       cone radius height dx dy true r = Ok (g, r ++ [g])
       /\ len (vertices g) = (dy + 3) * dx
       /\ (forall k, 0 <= k < dx ->
             let theta := fmul (fmul (of_int 2) math_pi) (int_truediv k dx) in
             let rho := fadd (of_int 1)
                          (fmul (fsub (of_int 0) (of_int 1))
                             (int_truediv dy dy)) in
             nth_error (vertices g) (Z.to_nat ((dy + 2) * dx + k))
             = Some (fmul (math_sin theta) rho,
                     fsub (fmul (of_int 1) (int_truediv dy dy))
                          (fdiv (of_int 1) (of_int 2)),
                     fmul (math_cos theta) rho))
       /\ triangles_touching (faces g) ((dy + 2) * dx) dx = Z.to_nat (2 * dx)
       /\ triangles_with_corners (faces g) ((dy + 2) * dx) dx 1 = Z.to_nat dx
       /\ triangles_with_corners (faces g) ((dy + 2) * dx) dx 2 = Z.to_nat dx)
  /\ (forall (D : @Derivations R) (radius height : R) (r : renderer),
        exists g : Geometry,
          cone (N := RNum) radius height dx dy true r = Ok (g, r ++ [g])
          /\ forall k, 0 <= k < dx ->
               nth_error (vertices g) (Z.to_nat ((dy + 2) * dx + k))
               = Some (0, 1 / 2, 0)%R).
Proof.
  intros Hdx Hdy. split.
  - intros F N D radius height r.
    destruct (cone_mesh radius height r Hdx Hdy)
      as (g & Hg & Hlen & Hv & Ht & Hc1 & Hc2).
    exists g. repeat split; try assumption.
    intros k Hk. cbv zeta. rewrite Hv by assumption.
    now rewrite frustum_vertex_cone_top by assumption.
  - intros D radius height r.
    destruct (cone_mesh (N := RNum) radius height r Hdx Hdy)
      as (g & Hg & _ & Hv & _).
    exists g. split; [assumption|].
    intros k Hk. rewrite Hv by assumption.
    now rewrite cone_top_vertex_real.
Qed.

(** C3 as stated fails at [cone(50, 50, 3, 1, True)]: six triangles, not
    three, have a corner in the top ring, the vertices 9, 10 and 11. *)
Lemma cone_apex_triangles_counterexample :
  exists g : Geometry,
    cone (N := RNum) (D := GridDerivations) 50%R 50%R 3 1 true []
    = Ok (g, [g])
    /\ len (vertices g) = 12
    /\ triangles_touching (faces g) 9 3 = 6%nat
    /\ triangles_touching (faces g) 9 3 <> Z.to_nat 3.
Proof.
  destruct (cone_mesh (N := RNum) (D := GridDerivations) 50%R 50%R []
              (dx := 3) (dy := 1)) as (g & Hg & Hlen & _ & Ht & _);
    [lia | lia |].
  exists g. split; [exact Hg|]. split; [exact Hlen|].
  change ((1 + 2) * 3) with 9 in Ht. rewrite Ht. split; [reflexivity | lia].
Qed.

(** ** Edges of the doubly capped truncated cone *)

(** *** How often an edge occurs among the edges of the triangles *)

Lemma mk_edge_comm (a b : Z) : mk_edge a b = mk_edge b a.
Proof. unfold mk_edge. now rewrite Z.min_comm, Z.max_comm. Qed.

Lemma edge_slots_flat_map {A : Type} (f : A -> list face) (l : list A) :
  edge_slots (flat_map f l) = flat_map (fun x => edge_slots (f x)) l.
Proof.
  unfold edge_slots. induction l as [|x l IH]; cbn; [reflexivity|].
  now rewrite flat_map_app, IH.
Qed.

Lemma mult_flat_map_sum {A : Type} (f g : A -> list edge) (l : list A)
    (e : edge) :
  mult (flat_map (fun x => f x ++ g x) l) e
  = (mult (flat_map f l) e + mult (flat_map g l) e)%nat.
Proof.
  induction l as [|x l IH]; cbn [flat_map]; [reflexivity|].
  rewrite !count_occ_app, IH. lia.
Qed.

Lemma mult_map_flat_map {A : Type} (f : A -> edge) (l : list A) (e : edge) :
  mult (map f l) e = mult (flat_map (fun x => [f x]) l) e.
Proof. now rewrite flat_map_singleton. Qed.

(** Shifting every position of a ring by one permutes the ring. *)
Lemma mult_map_next (f : Z -> edge) (n : Z) (e : edge) :
  1 <= n ->
  mult (map (fun ii => f ((ii + 1) mod n)) (range 0 n)) e
  = mult (map f (range 0 n)) e.
Proof.
  intros Hn.
  assert (Hr1 : range 0 n = range 0 (n - 1) ++ [n - 1])
    by (rewrite <- range_snoc by lia; f_equal; lia).
  assert (Hr2 : range 0 n = 0 :: map (fun x => x + 1) (range 0 (n - 1)))
    by (rewrite range_cons by lia; f_equal; rewrite <- range_shift;
        f_equal; lia).
  rewrite Hr1 at 1. rewrite Hr2.
  rewrite map_app, count_occ_app. cbn [map].
  replace ((n - 1 + 1) mod n) with 0
    by (replace (n - 1 + 1) with n by lia; now rewrite Z.mod_same by lia).
  rewrite map_map.
  rewrite (map_ext_in (fun ii => f ((ii + 1) mod n)) (fun x => f (x + 1))).
  - cbn [count_occ]. destruct (edge_eq_dec (f 0) e); lia.
  - intros ii Hii. apply in_range in Hii. f_equal. apply Z.mod_small. lia.
Qed.

Lemma slots_bottom_cap (n : Z) (e : edge) :
  1 <= n ->
  mult (edge_slots (bottom_cap_faces n)) e
  = (mult (diag_edges n 0) e + mult (ring_edges n n) e
     + mult (rung_edges n 0) e)%nat.
Proof.
  intros Hn. unfold bottom_cap_faces. rewrite edge_slots_flat_map.
  unfold edge_slots. cbn [flat_map face_edges app].
  rewrite (mult_flat_map_sum (fun jj => [mk_edge jj (n + (jj + 1) mod n)])
             (fun jj => [mk_edge (n + (jj + 1) mod n) (n + jj);
                         mk_edge (n + jj) jj])).
  rewrite (mult_flat_map_sum (fun jj => [mk_edge (n + (jj + 1) mod n) (n + jj)])
             (fun jj => [mk_edge (n + jj) jj])).
  rewrite <- !mult_map_flat_map.
  replace (map (fun jj => mk_edge jj (n + (jj + 1) mod n)) (range 0 n))
    with (diag_edges n 0)
    by (apply map_ext; intros; f_equal; lia).
  replace (map (fun jj => mk_edge (n + (jj + 1) mod n) (n + jj)) (range 0 n))
    with (ring_edges n n)
    by (apply map_ext; intros; apply mk_edge_comm).
  replace (map (fun jj => mk_edge (n + jj) jj) (range 0 n))
    with (rung_edges n 0)
    by (apply map_ext; intros; rewrite mk_edge_comm; f_equal; lia).
  lia.
Qed.

Lemma slots_segment (n s : Z) (e : edge) :
  1 <= n ->
  mult (edge_slots (segment_faces n s)) e
  = (mult (ring_edges n s) e + 2 * mult (rung_edges n s) e
     + 2 * mult (diag_edges n s) e + mult (ring_edges n (s + n)) e)%nat.
Proof.
  intros Hn. unfold segment_faces. rewrite edge_slots_flat_map.
  unfold edge_slots. cbn [flat_map face_edges app].
  change (fun ii : Z =>
            [mk_edge (s + ii) (s + (ii + 1) mod n);
             mk_edge (s + (ii + 1) mod n) (s + n + (ii + 1) mod n);
             mk_edge (s + n + (ii + 1) mod n) (s + ii);
             mk_edge (s + ii) (s + n + (ii + 1) mod n);
             mk_edge (s + n + (ii + 1) mod n) (s + n + ii);
             mk_edge (s + n + ii) (s + ii)])
    with (fun ii : Z =>
            [mk_edge (s + ii) (s + (ii + 1) mod n)]
            ++ [mk_edge (s + (ii + 1) mod n) (s + n + (ii + 1) mod n)]
            ++ [mk_edge (s + n + (ii + 1) mod n) (s + ii)]
            ++ [mk_edge (s + ii) (s + n + (ii + 1) mod n)]
            ++ [mk_edge (s + n + (ii + 1) mod n) (s + n + ii)]
            ++ [mk_edge (s + n + ii) (s + ii)]).
  rewrite !mult_flat_map_sum, <- !mult_map_flat_map.
  rewrite (mult_map_next (fun x => mk_edge (s + x) (s + n + x)) e Hn).
  unfold diag_edges, ring_edges, rung_edges.
  replace (map (fun ii => mk_edge (s + n + (ii + 1) mod n) (s + ii)) (range 0 n))
    with (map (fun ii => mk_edge (s + ii) (s + n + (ii + 1) mod n)) (range 0 n))
    by (apply map_ext; intros; apply mk_edge_comm).
  replace (map (fun ii => mk_edge (s + n + (ii + 1) mod n) (s + n + ii)) (range 0 n))
    with (map (fun ii => mk_edge (s + n + ii) (s + n + (ii + 1) mod n)) (range 0 n))
    by (apply map_ext; intros; apply mk_edge_comm).
  replace (map (fun ii => mk_edge (s + n + ii) (s + ii)) (range 0 n))
    with (map (fun ii => mk_edge (s + ii) (s + n + ii)) (range 0 n))
    by (apply map_ext; intros; apply mk_edge_comm).
  lia.
Qed.

Lemma slots_top_cap (n s : Z) (e : edge) :
  1 <= n ->
  mult (edge_slots (top_cap_faces n s)) e
  = (mult (ring_edges n s) e + 2 * mult (spoke_edges n s) e)%nat.
Proof.
  intros Hn. unfold top_cap_faces. rewrite edge_slots_flat_map.
  unfold edge_slots. cbn [flat_map face_edges app].
  change (fun ii : Z =>
            [mk_edge (s + ii) (s + (ii + 1) mod n);
             mk_edge (s + (ii + 1) mod n) (s + n);
             mk_edge (s + n) (s + ii)])
    with (fun ii : Z =>
            [mk_edge (s + ii) (s + (ii + 1) mod n)]
            ++ [mk_edge (s + (ii + 1) mod n) (s + n)]
            ++ [mk_edge (s + n) (s + ii)]).
  rewrite !mult_flat_map_sum, <- !mult_map_flat_map.
  rewrite (mult_map_next (fun x => mk_edge (s + x) (s + n)) e Hn).
  unfold ring_edges, spoke_edges.
  replace (map (fun ii => mk_edge (s + n) (s + ii)) (range 0 n))
    with (map (fun ii => mk_edge (s + ii) (s + n)) (range 0 n))
    by (apply map_ext; intros; apply mk_edge_comm).
  lia.
Qed.

Lemma slots_body (n m s : Z) (e : edge) :
  1 <= n ->
  mult (edge_slots (body_faces n m s)) e
  = (mult (flat_map (fun r => ring_edges n (s + r * n)) (range 0 m)) e
     + 2 * mult (flat_map (fun r => rung_edges n (s + r * n)) (range 0 m)) e
     + 2 * mult (flat_map (fun r => diag_edges n (s + r * n)) (range 0 m)) e
     + mult (flat_map (fun r => ring_edges n (s + r * n + n)) (range 0 m)) e)%nat.
Proof.
  intros Hn. unfold body_faces. rewrite edge_slots_flat_map.
  induction (range 0 m) as [|r l IH]; cbn [flat_map]; [reflexivity|].
  rewrite !count_occ_app, IH, slots_segment by assumption. lia.
Qed.

Lemma edge_slots_app (fs fs' : list face) :
  edge_slots (fs ++ fs') = edge_slots fs ++ edge_slots fs'.
Proof. apply flat_map_app. Qed.

Lemma flat_map_ring_ext (f g : Z -> list edge) (l : list Z) :
  (forall r, f r = g r) -> flat_map f l = flat_map g l.
Proof. intros H. apply flat_map_ext. exact H. Qed.

(** Among the edges of the triangles of the doubly capped cone, an edge of
    [capped_edges_once] occurs once for each of its occurrences in that
    list, and an edge of [capped_edges_twice] twice. *)
Lemma capped_slots_mult (n m : Z) (e : edge) :
  1 <= n -> 1 <= m ->
  mult (edge_slots (frustum_faces n m true true)) e
  = (mult (capped_edges_once n m) e + 2 * mult (capped_edges_twice n m) e)%nat.
Proof.
  intros Hn Hm. unfold frustum_faces, capped_edges_once, capped_edges_twice.
  rewrite !edge_slots_app, !count_occ_app.
  rewrite slots_bottom_cap, slots_body, slots_top_cap by assumption.
  (* the lower ring of every segment *)
  assert (T1 : mult (flat_map (fun r => ring_edges n (n * 2 + r * n))
                       (range 0 m)) e
               = (mult (ring_edges n (2 * n)) e
                  + mult (flat_map (fun r => ring_edges n ((r + 2) * n))
                            (range 1 m)) e)%nat).
  { rewrite range_cons by lia. cbn [flat_map]. rewrite count_occ_app.
    f_equal; [f_equal; f_equal; lia|].
    f_equal. apply flat_map_ring_ext. intros r. f_equal. lia. }
  (* the upper ring of every segment *)
  assert (T2 : mult (flat_map (fun r => ring_edges n (n * 2 + r * n + n))
                       (range 0 m)) e
               = (mult (flat_map (fun r => ring_edges n ((r + 2) * n))
                          (range 1 m)) e
                  + mult (ring_edges n ((m + 2) * n)) e)%nat).
  { transitivity
      (mult (flat_map (fun r => ring_edges n ((r + 2) * n))
               (range (0 + 1) (m + 1))) e).
    - rewrite range_shift, flat_map_map. f_equal.
      apply flat_map_ring_ext. intros r. f_equal. lia.
    - rewrite range_snoc, flat_map_app, count_occ_app by lia.
      cbn [flat_map]. now rewrite app_nil_r. }
  rewrite T1, T2.
  replace (flat_map (fun r => rung_edges n (n * 2 + r * n)) (range 0 m))
    with (flat_map (fun r => rung_edges n ((r + 2) * n)) (range 0 m))
    by (apply flat_map_ring_ext; intros r; f_equal; lia).
  replace (flat_map (fun r => diag_edges n (n * 2 + r * n)) (range 0 m))
    with (flat_map (fun r => diag_edges n ((r + 2) * n)) (range 0 m))
    by (apply flat_map_ring_ext; intros r; f_equal; lia).
  replace (n * 2 + m * n + n) with ((m + 3) * n) by lia.
  lia.
Qed.

(** *** The edges are pairwise distinct *)

Lemma ring_base_cases (n j j' : Z) :
  1 <= n -> j = j' \/ j * n + n <= j' * n \/ j' * n + n <= j * n.
Proof. intros Hn. nia. Qed.

(** An edge determines its kind, its ring and its position. *)
Lemma edge_of_inj (n : Z) (k k' : edge_kind) (j j' ii ii' : Z) :
  3 <= n -> 0 <= ii < n -> 0 <= ii' < n ->
  compatible k j k' j' ->
  edge_of k n j ii = edge_of k' n j' ii' ->
  k = k' /\ j = j' /\ ii = ii'.
Proof.
  intros Hn Hi Hi' Hc He.
  destruct (next_cases Hi) as [[Hlt Hx]|[Hlt Hx]],
           (next_cases Hi') as [[Hlt' Hx']|[Hlt' Hx']],
           (ring_base_cases j j' (n := n) ltac:(lia)) as [Hj|[Hj|Hj]];
    destruct k, k'; cbn in He, Hc; unfold mk_edge in He;
    rewrite ?Hx, ?Hx' in He; injection He as H1 H2;
    first [ exfalso; lia | repeat split; (reflexivity || lia) ].
Qed.

Lemma in_family (k : edge_kind) (n j : Z) (e : edge) :
  In e (family k n j) <-> exists ii, 0 <= ii < n /\ e = edge_of k n j ii.
Proof.
  unfold family. rewrite in_map_iff. split.
  - intros (ii & <- & Hii). apply in_range in Hii. eauto.
  - intros (ii & Hii & ->). exists ii. rewrite in_range. split; [reflexivity | lia].
Qed.

Lemma NoDup_family (k : edge_kind) (n j : Z) :
  3 <= n -> NoDup (family k n j).
Proof.
  intros Hn. unfold family. apply NoDup_map_on; [|apply NoDup_range].
  intros x y Hx Hy He. apply in_range in Hx, Hy.
  apply edge_of_inj in He; try lia.
  destruct k; exact I.
Qed.

(** Two families share no edge, unless they are the same family. *)
Lemma family_disjoint (n : Z) (k k' : edge_kind) (j j' : Z) (e : edge) :
  3 <= n -> compatible k j k' j' ->
  In e (family k n j) -> In e (family k' n j') -> k = k' /\ j = j'.
Proof.
  intros Hn Hc He He'.
  apply in_family in He as (ii & Hii & ->).
  apply in_family in He' as (ii' & Hii' & He').
  apply edge_of_inj in He'; try assumption. tauto.
Qed.

Lemma NoDup_flat_map_disjoint {A B : Type} (f : A -> list B) (l : list A) :
  NoDup l -> (forall x, In x l -> NoDup (f x)) ->
  (forall x y e, In x l -> In y l -> In e (f x) -> In e (f y) -> x = y) ->
  NoDup (flat_map f l).
Proof.
  intros Hl. induction Hl as [|a l Ha Hl IH]; intros Hf Hd; cbn [flat_map].
  - constructor.
  - apply NoDup_app.
    + apply Hf. now left.
    + apply IH; intros; [apply Hf; now right | eapply Hd; eauto; now right].
    + intros e He He'. apply in_flat_map in He' as (y & Hy & He').
      apply Ha. rewrite (Hd a y e); auto; [now left | now right].
Qed.

Lemma ring_edges_family (n j : Z) : ring_edges n (j * n) = family Ring n j.
Proof. reflexivity. Qed.

Lemma rung_edges_family (n j : Z) : rung_edges n (j * n) = family Rung n j.
Proof. reflexivity. Qed.

Lemma diag_edges_family (n j : Z) : diag_edges n (j * n) = family Diag n j.
Proof. reflexivity. Qed.

Lemma spoke_edges_family (n j : Z) : spoke_edges n (j * n) = family Spoke n j.
Proof. reflexivity. Qed.

(** The edges of the doubly capped cone as families of ring edges, rungs,
    diagonals and spokes. *)
Lemma capped_edges_families (n m : Z) :
  capped_edges_once n m ++ capped_edges_twice n m
  = (family Diag n 0 ++ family Ring n 1 ++ family Rung n 0
     ++ family Ring n 2 ++ family Ring n (m + 2) ++ family Ring n (m + 3))
    ++ flat_map (fun r => family Ring n (r + 2)) (range 1 m)
    ++ flat_map (fun r => family Rung n (r + 2)) (range 0 m)
    ++ flat_map (fun r => family Diag n (r + 2)) (range 0 m)
    ++ family Spoke n (m + 3).
Proof.
  unfold capped_edges_once, capped_edges_twice.
  rewrite <- !ring_edges_family, <- !diag_edges_family, <- !rung_edges_family,
    <- spoke_edges_family.
  replace (1 * n) with n by lia. reflexivity.
Qed.

Lemma in_capped_families (m : Z) (k : edge_kind) (j : Z) :
  1 <= m ->
  In (k, j) (capped_families m) ->
  match k with
  | Ring => 1 <= j <= m + 3
  | Rung | Diag => j = 0 \/ 2 <= j <= m + 1
  | Spoke => j = m + 3
  end.
Proof.
  intros Hm.
  unfold capped_families. rewrite !in_app_iff, !in_map_iff. cbn [In].
  intros H.
  repeat match goal with
         | H : _ \/ _ |- _ => destruct H as [H|H]
         | H : exists _, _ |- _ => destruct H as (? & H & ?)
         | H : False |- _ => destruct H
         | H : In _ (range _ _) |- _ => apply in_range in H
         | H : (_, _) = (_, _) |- _ => injection H as <- <-
         end; lia.
Qed.

Lemma capped_families_compatible (m : Z) (d d' : edge_kind * Z) :
  1 <= m ->
  In d (capped_families m) -> In d' (capped_families m) ->
  compatible (fst d) (snd d) (fst d') (snd d').
Proof.
  destruct d as [k j], d' as [k' j']. intros Hm H H'.
  apply in_capped_families in H, H'; try assumption.
  destruct k, k'; cbn; try exact I; lia.
Qed.

Lemma NoDup_capped_families (m : Z) : 1 <= m -> NoDup (capped_families m).
Proof.
  intros Hm. unfold capped_families.
  assert (Hmap : forall (k : edge_kind) lo hi,
             NoDup (map (fun r => (k, r + 2)) (range lo hi))).
  { intros k lo hi. apply NoDup_map_on; [|apply NoDup_range].
    intros x y _ _ H. injection H. lia. }
  repeat apply NoDup_app; try apply Hmap.
  - repeat constructor; cbn [In]; intros H;
      repeat match goal with
             | H : _ \/ _ |- _ => destruct H as [H|H]
             | H : False |- _ => destruct H
             | H : (_, _) = (_, _) |- _ => injection H; intros; lia
             end; discriminate.
  - repeat constructor. intros [].
  - intros [k j]. rewrite in_map_iff. cbn [In].
    intros (r & H & Hr) [H'|[]]. rewrite <- H in H'. discriminate.
  - intros [k j]. rewrite in_app_iff, !in_map_iff. cbn [In].
    intros (r & H & Hr) [(r' & H' & Hr')|[H'|[]]];
      rewrite <- H in H'; discriminate.
  - intros [k j]. rewrite !in_app_iff, !in_map_iff. cbn [In].
    intros (r & H & Hr) [(r' & H' & Hr')|[(r' & H' & Hr')|[H'|[]]]];
      rewrite <- H in H'; discriminate.
  - intros [k j]. rewrite !in_app_iff, !in_map_iff. cbn [In].
    intros H H'.
    repeat match goal with
           | H : _ \/ _ |- _ => destruct H as [H|H]
           | H : exists _, _ |- _ => destruct H as (? & H & ?)
           | H : False |- _ => destruct H
           | H : In _ (range _ _) |- _ => apply in_range in H
           | H : (_, _) = (k, j) |- _ => injection H as <- <-
           end; try discriminate;
      match goal with H : (_, _) = (_, _) |- _ => injection H; intros; lia end.
Qed.

Lemma capped_edges_flat_map (n m : Z) :
  capped_edges_once n m ++ capped_edges_twice n m
  = flat_map (fun d => family (fst d) n (snd d)) (capped_families m).
Proof.
  rewrite capped_edges_families. unfold capped_families.
  rewrite !flat_map_app, !flat_map_map. cbn [flat_map fst snd].
  rewrite !app_nil_r, <- !app_assoc. reflexivity.
Qed.

Lemma NoDup_capped_edges (n m : Z) :
  3 <= n -> 1 <= m ->
  NoDup (capped_edges_once n m ++ capped_edges_twice n m).
Proof.
  intros Hn Hm. rewrite capped_edges_flat_map.
  apply NoDup_flat_map_disjoint.
  - apply NoDup_capped_families. assumption.
  - intros d _. apply NoDup_family. assumption.
  - intros [k j] [k' j'] e Hd Hd' He He'. cbn [fst snd] in He, He'.
    pose proof (@capped_families_compatible m (k, j) (k', j') Hm Hd Hd') as Hc. cbn [fst snd] in Hc.
    destruct (@family_disjoint n k k' j j' e Hn Hc He He') as [-> ->]. reflexivity.
Qed.

Lemma length_family_edges (n s : Z) :
  length (ring_edges n s) = Z.to_nat n
  /\ length (rung_edges n s) = Z.to_nat n
  /\ length (diag_edges n s) = Z.to_nat n
  /\ length (spoke_edges n s) = Z.to_nat n.
Proof.
  unfold ring_edges, rung_edges, diag_edges, spoke_edges.
  now rewrite !length_map, !length_range_0.
Qed.

Lemma length_capped_edges (n m : Z) :
  0 <= n -> 1 <= m ->
  length (capped_edges_once n m) = Z.to_nat (6 * n)
  /\ length (capped_edges_twice n m) = Z.to_nat (3 * m * n).
Proof.
  intros Hn Hm. unfold capped_edges_once, capped_edges_twice.
  rewrite !length_app.
  rewrite !length_flat_map_const with (k := Z.to_nat n)
    by (intros; apply length_family_edges).
  rewrite !length_range.
  repeat match goal with
         | |- context [length (?f n ?s)] =>
             rewrite (proj1 (length_family_edges n s))
             || rewrite (proj1 (proj2 (length_family_edges n s)))
             || rewrite (proj1 (proj2 (proj2 (length_family_edges n s))))
             || rewrite (proj2 (proj2 (proj2 (length_family_edges n s))))
         end.
  split; nia.
Qed.

(** *** Triangles sharing an edge *)

Lemma face_edges_NoDup (a b c : Z) :
  a <> b -> b <> c -> c <> a -> NoDup (face_edges (a, b, c)).
Proof.
  intros Hab Hbc Hca. unfold face_edges, mk_edge.
  repeat constructor; cbn [In]; intros H;
    repeat match goal with
           | H : _ \/ _ |- _ => destruct H as [H|H]
           | H : False |- _ => destruct H
           | H : (_, _) = (_, _) |- _ => injection H; intros; lia
           end.
Qed.

(** When no triangle repeats an edge, the triangles that share [e] are as
    many as the occurrences of [e] among the edges of the triangles. *)
Lemma triangles_sharing_mult (fs : list face) (e : edge) :
  (forall f, In f fs -> NoDup (face_edges f)) ->
  triangles_sharing fs e = mult (edge_slots fs) e.
Proof.
  unfold triangles_sharing, edge_slots.
  induction fs as [|f fs IH]; intros H; cbn [filter flat_map];
    [reflexivity|].
  rewrite count_occ_app, <- IH by (intros; apply H; now right).
  assert (Hf : NoDup (face_edges f)) by (apply H; now left).
  unfold has_edge. destruct (in_dec edge_eq_dec e (face_edges f)) as [Hin|Hin].
  - cbn [length]. apply (NoDup_count_occ' edge_eq_dec) in Hin; [|exact Hf]. lia.
  - apply (count_occ_not_In edge_eq_dec) in Hin. lia.
Qed.

Lemma frustum_faces_NoDup (n m : Z) (f : face) :
  3 <= n -> In f (frustum_faces n m true true) -> NoDup (face_edges f).
Proof.
  intros Hn. unfold frustum_faces. rewrite !in_app_iff.
  rewrite in_bottom_cap_faces, in_body_faces, in_top_cap_faces.
  intros [(jj & Hjj & ->)|[(r & Hr & Hf)|(ii & Hii & ->)]].
  - destruct (next_cases Hjj) as [[? Hx]|[? Hx]]; rewrite Hx;
      apply face_edges_NoDup; lia.
  - apply in_segment_faces in Hf as (ii & Hii & Hf).
    destruct (next_cases Hii) as [[? Hx]|[? Hx]]; rewrite Hx in Hf;
      destruct Hf as [-> | ->]; apply face_edges_NoDup; lia.
  - destruct (next_cases Hii) as [[? Hx]|[? Hx]]; rewrite Hx;
      apply face_edges_NoDup; lia.
Qed.

Lemma length_frustum_faces_capped (n m : Z) :
  0 <= n -> 0 <= m ->
  len (frustum_faces n m true true) = 2 * n * (m + 1).
Proof.
  intros Hn Hm. unfold len, frustum_faces.
  rewrite !length_app, length_bottom_cap_faces, length_top_cap_faces.
  rewrite length_body_faces by assumption. nia.
Qed.

(** The edges of the doubly capped cone: distinct edges, their number, and
    how many triangles share each. *)
Lemma capped_edges_spec (n m : Z) :
  3 <= n -> 1 <= m ->
  let fs := frustum_faces n m true true in
  (forall e, In e (mesh_edges fs)
             <-> In e (capped_edges_once n m ++ capped_edges_twice n m))
  /\ len (mesh_edges fs) = (3 * m + 6) * n
  /\ (forall e, In e (capped_edges_once n m) -> triangles_sharing fs e = 1%nat)
  /\ (forall e, In e (capped_edges_twice n m) -> triangles_sharing fs e = 2%nat).
Proof.
  intros Hn Hm fs.
  pose proof (NoDup_capped_edges Hn Hm) as Hnd.
  assert (Hmult : forall e,
             mult (edge_slots fs) e
             = (mult (capped_edges_once n m) e
                + 2 * mult (capped_edges_twice n m) e)%nat)
    by (intros e; apply capped_slots_mult; lia).
  assert (Hle : forall e,
             (mult (capped_edges_once n m) e
              + mult (capped_edges_twice n m) e <= 1)%nat).
  { intros e. rewrite <- count_occ_app.
    apply (proj1 (NoDup_count_occ edge_eq_dec _) Hnd). }
  assert (Hin : forall e, In e (mesh_edges fs)
             <-> In e (capped_edges_once n m ++ capped_edges_twice n m)).
  { intros e. unfold mesh_edges. rewrite nodup_In.
    rewrite !(count_occ_In edge_eq_dec), count_occ_app, Hmult. lia. }
  assert (Hshare : forall e, triangles_sharing fs e = mult (edge_slots fs) e).
  { intros e. apply triangles_sharing_mult.
    intros f Hf. eapply frustum_faces_NoDup; eassumption. }
  split; [exact Hin|]. split; [|split].
  - unfold len.
    rewrite (Permutation_length (l := mesh_edges fs)
               (l' := capped_edges_once n m ++ capped_edges_twice n m)).
    + rewrite length_app.
      destruct (length_capped_edges (n := n) (m := m)) as [-> ->]; nia.
    + apply NoDup_Permutation; [apply NoDup_nodup | exact Hnd | exact Hin].
  - intros e He. rewrite Hshare, Hmult.
    apply (count_occ_In edge_eq_dec) in He. specialize (Hle e). lia.
  - intros e He. rewrite Hshare, Hmult.
    apply (count_occ_In edge_eq_dec) in He. specialize (Hle e). lia.
Qed.

Section CappedCylinder.

Context {F : Type} {N : Num F} {D : @Derivations F}.

(** The doubly capped cylinder: its counts and its edges. *)
Lemma capped_cylinder_mesh (radius height : F) (dx dy : Z) (r : renderer) :
  3 <= dx -> 1 <= dy ->
  exists g : Geometry,
    cylinder radius height dx dy true true r = Ok (g, r ++ [g])
    /\ faces g = frustum_faces dx dy true true
    /\ len (vertices g) = (dy + 5) * dx
    /\ len (faces g) = 2 * dx * (dy + 1)
    /\ len (mesh_edges (faces g)) = (3 * dy + 6) * dx
    /\ euler_characteristic g = dx
    /\ (forall e, In e (mesh_edges (faces g))
                  <-> In e (capped_edges_once dx dy ++ capped_edges_twice dx dy))
    /\ (forall e, In e (capped_edges_once dx dy) ->
                  triangles_sharing (faces g) e = 1%nat)
    /\ (forall e, In e (capped_edges_twice dx dy) ->
                  triangles_sharing (faces g) e = 2%nat).
Proof.
  intros Hdx Hdy. eexists.
  split; [apply draw_on_return_ok, cylinder_func_eq|].
  unfold euler_characteristic.
  cbn [vertices faces grow Geometry_new app set_matrix
         edges_to_vertices make_triangle_edges].
  replace (Z.max dx 3) with dx by lia.
  replace (Z.max dy 1) with dy by lia.
  destruct (capped_edges_spec Hdx Hdy) as (Hin & Hlen & H1 & H2).
  rewrite Hlen, length_frustum_vertices, length_frustum_faces_capped by lia.
  unfold ring_count.
  repeat split; try (apply Hin); try assumption; try lia.
Qed.

End CappedCylinder.

(** C2, amended.  For [detail_x >= 3] and [detail_y >= 1] the doubly capped
    cylinder has [V = (detail_y + 5) * detail_x] vertices,
    [F = 2 * detail_x * (detail_y + 1)] triangles and
    [E = (3 * detail_y + 6) * detail_x] deduplicated edges, so that
    [V - E + F = detail_x].  At the index level it is not closed: each
    deduplicated edge is shared by one or by two triangles.  The
    [6 * detail_x] edges of [capped_edges_once] (the edges of the
    bottom-cap triangles, the first and the last body ring, the rim of the
    top cap) belong to one triangle; the edges of [capped_edges_twice] (the
    other body rings, the rungs and diagonals of the body, the spokes of
    the top cap) belong to two. *)
Theorem cylinder_capped_euler {F : Type} {N : Num F} {D : @Derivations F}
    (radius height : F) (dx dy : Z) (r : renderer) :
  3 <= dx -> 1 <= dy ->
  exists g : Geometry,
    cylinder radius height dx dy true true r = Ok (g, r ++ [g])
    /\ len (vertices g) = (dy + 5) * dx
    /\ len (faces g) = 2 * dx * (dy + 1)
    /\ len (mesh_edges (faces g)) = (3 * dy + 6) * dx
    /\ euler_characteristic g = dx
    /\ (forall e, In e (mesh_edges (faces g)) ->
                  triangles_sharing (faces g) e = 1%nat
                  \/ triangles_sharing (faces g) e = 2%nat)
    /\ (forall e, In e (mesh_edges (faces g)) <->
                  In e (capped_edges_once dx dy)
                  \/ In e (capped_edges_twice dx dy))
    /\ (forall e, In e (capped_edges_once dx dy) ->
                  triangles_sharing (faces g) e = 1%nat)
    /\ (forall e, In e (capped_edges_twice dx dy) ->
                  triangles_sharing (faces g) e = 2%nat)
    /\ length (capped_edges_once dx dy) = Z.to_nat (6 * dx).
Proof.
  intros Hdx Hdy.
  destruct (capped_cylinder_mesh radius height r Hdx Hdy)
    as (g & Hg & _ & HV & HF & HE & Heu & Hin & H1 & H2).
  exists g.
  split; [exact Hg|]. split; [exact HV|]. split; [exact HF|].
  split; [exact HE|]. split; [exact Heu|].
  split; [|split; [|split; [|split]]].
  - intros e He. apply Hin, in_app_iff in He. destruct He; auto.
  - intros e. rewrite Hin. apply in_app_iff.
  - exact H1.
  - exact H2.
  - apply length_capped_edges; lia.
Qed.

(** C2 as stated fails at [cylinder(50, 50, 3, 1, True, True)]: the mesh has
    18 vertices, 27 deduplicated edges and 12 triangles, so
    [V - E + F = 3], and the edge between the vertices 0 and 3, of the first
    bottom-cap triangle, belongs to that triangle only. *)
Lemma cylinder_euler_counterexample :
  exists g : Geometry,
    cylinder (N := RNum) (D := GridDerivations) 50%R 50%R 3 1 true true []
    = Ok (g, [g])
    /\ len (vertices g) = 18
    /\ len (mesh_edges (faces g)) = 27
    /\ len (faces g) = 12
    /\ euler_characteristic g = 3
    /\ euler_characteristic g <> 2
    /\ In (0, 3) (mesh_edges (faces g))
    /\ triangles_sharing (faces g) (0, 3) = 1%nat
    /\ triangles_sharing (faces g) (0, 3) <> 2%nat.
Proof.
  destruct (capped_cylinder_mesh (N := RNum) (D := GridDerivations)
              50%R 50%R [] (dx := 3) (dy := 1))
    as (g & Hg & Hfs & HV & HF & HE & Heu & Hin & H1 & H2); [lia | lia |].
  assert (H03 : In (0, 3) (capped_edges_once 3 1))
    by (vm_compute; tauto).
  exists g. rewrite (H1 _ H03), Heu.
  repeat split; try assumption; try lia.
  apply Hin, in_app_iff. now left.
Qed.

(** ** Instances over the reals *)

(** The rule applies at [b = -1] over the reals. *)
Lemma truncated_cone_nonpositive_bottom_witness :
  exists g g1 : Geometry,
    truncated_cone (-1)%R 0%R 1%R 3 1 true false = Ok g
    /\ truncated_cone (of_int 1) 0%R 1%R 3 1 true false = Ok g1
    /\ vertices g = vertices g1
    /\ vertex_normals g = vertex_normals g1
    /\ uvs g = uvs g1
    /\ faces g = faces g1
    /\ g = g1.
Proof.
  apply (truncated_cone_nonpositive_bottom (N := RNum)).
  cbn. destruct (Rle_dec (-1) 0) as [|Hn]; [reflexivity|].
  exfalso. apply Hn. apply IZR_le. lia.
Defined.

(** The grid of [ellipsoid(1, 2, 3, 4, 2)] over the reals. *)
Lemma ellipsoid_grid_witness :
  exists g : Geometry,
    ellipsoid (D := GridDerivations) 1%R 2%R 3%R 4 2 [] = Ok (g, [] ++ [g])
    /\ len (vertices g) = (4 + 1) * (2 + 1)
    /\ len (vertex_normals g) = (4 + 1) * (2 + 1)
    /\ vertex_normals g = vertices g
    /\ (forall k, nth_error (vertex_normals g) k = nth_error (vertices g) k)
    /\ (forall i j, 0 <= i <= 2 -> 0 <= j <= 4 ->
          let u := int_truediv j 4 in
          let v := int_truediv i 2 in
          let phi := fsub (fmul math_pi v) (fdiv math_pi (of_int 2)) in
          let theta := fmul (fmul (of_int 2) math_pi) u in
          nth_error (vertices g) (Z.to_nat (i * (4 + 1) + j))
          = Some (fmul (math_cos phi) (math_sin theta),
                  math_sin phi,
                  fmul (math_cos phi) (math_cos theta))).
Proof.
  apply (ellipsoid_grid (N := RNum) (D := GridDerivations)); lia.
Defined.

(** *** C1 at the torus defaults *)

Lemma is_zero_IZR (z : Z) : z <> 0 -> is_zero (IZR z) = false.
Proof.
  intros Hz. cbn. destruct (Req_dec_T (IZR z) 0) as [H|]; [|reflexivity].
  apply eq_IZR in H. contradiction.
Qed.

(** C1, at [torus(50, 10, 24, 16)], the call with the default arguments,
    over the reals: the mesh has [25 * 17 = 425] vertices, but [torus]
    appends normals and UVs once per row, so it has 17 normals and 17 UV
    pairs (34 numbers).  The UV pairs are not as many as the vertices, and
    the normals are populated without being as many as the vertices. *)
Theorem torus_default_counts :
  exists g : Geometry,
    torus (D := GridDerivations) 50%R 10%R
      torus_default_detail_x torus_default_detail_y [] = Ok (g, [g])
    /\ length (vertices g) = 425%nat
    /\ length (vertex_normals g) = 17%nat
    /\ length (uvs g) = 34%nat
    /\ uv_pairs g = 17%nat
    /\ uv_pairs g <> length (vertices g)
    /\ vertex_normals g <> []
    /\ length (vertex_normals g) <> length (vertices g).
Proof.
  destruct (torus_counts (N := RNum) (D := GridDerivations) 50%R 10%R []
              (dx := torus_default_detail_x) (dy := torus_default_detail_y))
    as (g & Hg & Hv & Hn & Hu).
  - apply (is_zero_IZR (z := 50)). lia.
  - unfold torus_default_detail_x. lia.
  - unfold torus_default_detail_y. lia.
  - exists g. split; [exact Hg|].
    unfold len, torus_default_detail_x, torus_default_detail_y in Hv, Hn, Hu.
    assert (Hv' : length (vertices g) = 425%nat) by lia.
    assert (Hn' : length (vertex_normals g) = 17%nat) by lia.
    assert (Hu' : length (uvs g) = 34%nat) by lia.
    unfold uv_pairs. rewrite Hv', Hn', Hu'.
    repeat split; try reflexivity; try (cbn; lia).
    intros E. rewrite E in Hn'. discriminate.
Qed.

(** The apex ring of [cone(..., 3, 1, True)]. *)
Lemma cone_apex_ring_witness :
  (forall (F : Type) (N : Num F) (D : @Derivations F) (radius height : F)
          (r : renderer),
     exists g : Geometry,
       cone radius height 3 1 true r = Ok (g, r ++ [g])
       /\ len (vertices g) = (1 + 3) * 3
       /\ (forall k, 0 <= k < 3 ->
             let theta := fmul (fmul (of_int 2) math_pi) (int_truediv k 3) in
             let rho := fadd (of_int 1)
                          (fmul (fsub (of_int 0) (of_int 1))
                             (int_truediv 1 1)) in
             nth_error (vertices g) (Z.to_nat ((1 + 2) * 3 + k))
             = Some (fmul (math_sin theta) rho,
                     fsub (fmul (of_int 1) (int_truediv 1 1))
                          (fdiv (of_int 1) (of_int 2)),
                     fmul (math_cos theta) rho))
       /\ triangles_touching (faces g) ((1 + 2) * 3) 3 = Z.to_nat (2 * 3)
       /\ triangles_with_corners (faces g) ((1 + 2) * 3) 3 1 = Z.to_nat 3
       /\ triangles_with_corners (faces g) ((1 + 2) * 3) 3 2 = Z.to_nat 3)
  /\ (forall (D : @Derivations R) (radius height : R) (r : renderer),
        exists g : Geometry,
          cone (N := RNum) radius height 3 1 true r = Ok (g, r ++ [g])
          /\ forall k, 0 <= k < 3 ->
               nth_error (vertices g) (Z.to_nat ((1 + 2) * 3 + k))
               = Some (0, 1 / 2, 0)%R).
Proof.
  apply (cone_apex_ring (dx := 3) (dy := 1)); lia.
Defined.

(** The counts of [cylinder(1, 2, 3, 1, True, True)] over the reals. *)
Lemma cylinder_capped_euler_witness :
  exists g : Geometry,
    cylinder (N := RNum) (D := GridDerivations) 1%R 2%R 3 1 true true []
    = Ok (g, [] ++ [g])
    /\ len (vertices g) = (1 + 5) * 3
    /\ len (faces g) = 2 * 3 * (1 + 1)
    /\ len (mesh_edges (faces g)) = (3 * 1 + 6) * 3
    /\ euler_characteristic g = 3
    /\ (forall e, In e (mesh_edges (faces g)) ->
                  triangles_sharing (faces g) e = 1%nat
                  \/ triangles_sharing (faces g) e = 2%nat)
    /\ (forall e, In e (mesh_edges (faces g)) <->
                  In e (capped_edges_once 3 1)
                  \/ In e (capped_edges_twice 3 1))
    /\ (forall e, In e (capped_edges_once 3 1) ->
                  triangles_sharing (faces g) e = 1%nat)
    /\ (forall e, In e (capped_edges_twice 3 1) ->
                  triangles_sharing (faces g) e = 2%nat)
    /\ length (capped_edges_once 3 1) = Z.to_nat (6 * 3).
Proof.
  apply (cylinder_capped_euler (N := RNum) (D := GridDerivations)); lia.
Defined.

(** * Further properties of the module *)

(** ** The truncated cone for every input *)

Lemma frustum_faces_valid (n m : Z) (bc tc : bool) (a b c : Z) :
  3 <= n -> 1 <= m ->
  In (a, b, c) (frustum_faces n m bc tc) ->
  0 <= a < ring_count m bc tc * n
  /\ 0 <= b < ring_count m bc tc * n
  /\ 0 <= c < ring_count m bc tc * n
  /\ a <> b /\ b <> c /\ c <> a.
Proof.
  intros Hn Hm. unfold frustum_faces, ring_count. rewrite !in_app_iff.
  intros [Hf|[Hf|Hf]].
  - destruct bc; [|destruct Hf].
    apply in_bottom_cap_faces in Hf as (jj & Hjj & Hf).
    injection Hf as -> -> ->.
    destruct (next_cases Hjj) as [[? Hx]|[? Hx]]; rewrite Hx;
      destruct tc; nia.
  - apply in_body_faces in Hf as (r & Hr & Hf).
    apply in_segment_faces in Hf as (ii & Hii & Hf).
    destruct (next_cases Hii) as [[? Hx]|[? Hx]]; rewrite Hx in Hf;
      destruct Hf as [Hf|Hf]; injection Hf as -> -> ->;
      destruct bc, tc; nia.
  - destruct tc; [|destruct Hf].
    apply in_top_cap_faces in Hf as (ii & Hii & Hf).
    injection Hf as -> -> ->.
    destruct (next_cases Hii) as [[? Hx]|[? Hx]]; rewrite Hx;
      destruct bc; nia.
Qed.

Lemma length_frustum_faces (n m : Z) (bc tc : bool) :
  0 <= n -> 0 <= m ->
  len (frustum_faces n m bc tc)
  = n * (2 * m + (if bc then 1 else 0) + (if tc then 1 else 0)).
Proof.
  intros Hn Hm. unfold len, frustum_faces.
  rewrite !length_app, length_body_faces by assumption.
  destruct bc, tc;
    rewrite ?length_bottom_cap_faces, ?length_top_cap_faces; cbn [length]; nia.
Qed.

Section FrustumExtras.

Context {F : Type} {N : Num F} {D : @Derivations F}.

(** X1. For every input, the triangles [truncated_cone] returns are well
    formed at the index level: each of the three indices of a triangle is
    the index of a vertex of the mesh, and the three are pairwise distinct.
    The meshes of [cylinder] and [cone] are well formed in the same way. *)
Theorem truncated_cone_faces_valid (b t h radius height : F) (dx dy : Z)
    (bc tc : bool) (r : renderer) :
  exists g gcyl gcone : Geometry,
    truncated_cone b t h dx dy bc tc = Ok g
    /\ cylinder radius height dx dy tc bc r = Ok (gcyl, r ++ [gcyl])
    /\ cone radius height dx dy bc r = Ok (gcone, r ++ [gcone])
    /\ forall m : Geometry, m = g \/ m = gcyl \/ m = gcone ->
       forall i j k, In (i, j, k) (faces m) ->
         0 <= i < len (vertices m) /\ 0 <= j < len (vertices m)
         /\ 0 <= k < len (vertices m)
         /\ i <> j /\ j <> k /\ k <> i.
Proof.
  do 3 eexists.
  split; [apply truncated_cone_eq|].
  split; [apply draw_on_return_ok, cylinder_func_eq|].
  split; [apply draw_on_return_ok, cone_func_eq|].
  intros m [-> | [-> | ->]] i j k;
    cbn [vertices faces grow Geometry_new app set_matrix
           edges_to_vertices make_triangle_edges];
    unfold sanitize_detail_x, sanitize_detail_y;
    rewrite length_frustum_vertices by lia;
    apply frustum_faces_valid; lia.
Qed.

(** X2. For every input, [truncated_cone] returns
    [dx' * (2 * dy' + bottom_cap + top_cap)] triangles, where
    [dx' = max(detail_x, 3)] and [dy' = max(detail_y, 1)] and a cap counts
    for 1: [dx'] per cap and [2 * dx'] per body segment.  The mesh has as
    many normals as vertices and two UV numbers per vertex. *)
Theorem truncated_cone_counts (b t h : F) (dx dy : Z) (bc tc : bool) :
  exists g : Geometry,
    truncated_cone b t h dx dy bc tc = Ok g
    /\ len (faces g)
       = Z.max dx 3 * (2 * Z.max dy 1 + (if bc then 1 else 0)
                       + (if tc then 1 else 0))
    /\ len (vertex_normals g) = len (vertices g)
    /\ len (uvs g) = 2 * len (vertices g)
    /\ uv_pairs g = length (vertices g).
Proof.
  eexists. split; [apply truncated_cone_eq|].
  assert (Hx : 3 <= sanitize_detail_x dx) by (unfold sanitize_detail_x; lia).
  assert (Hy : 1 <= sanitize_detail_y dy) by (unfold sanitize_detail_y; lia).
  cbn [vertices vertex_normals uvs faces grow Geometry_new app].
  split; [apply length_frustum_faces; lia|].
  rewrite length_frustum_vertices, length_frustum_normals, length_frustum_uvs
    by lia.
  split; [reflexivity|]. split; [reflexivity|].
  eapply proj1, frustum_uv_normal_count
    with (dx := sanitize_detail_x dx) (dy := sanitize_detail_y dy);
    try reflexivity; assumption.
Qed.

(** X3. Sanitizing is idempotent: the call with the raw parameters and the
    call with the sanitized ones (bottom radius, top radius, height and
    both detail counts replaced by what [truncated_cone] makes of them)
    return the same vertices, normals, UVs and faces.  Only the stored
    detail counts differ. *)
Theorem truncated_cone_sanitize_idempotent (b t h : F) (dx dy : Z)
    (bc tc : bool) :
  let b' := if fleb b (of_int 0) then of_int 1 else b in
  let t' := if fltb t (of_int 0) then of_int 0 else t in
  let h' := if fleb h (of_int 0) then b' else h in
  exists g g' : Geometry,
    truncated_cone b t h dx dy bc tc = Ok g
    /\ truncated_cone b' t' h' (Z.max dx 3) (Z.max dy 1) bc tc = Ok g'
    /\ vertices g = vertices g'
    /\ vertex_normals g = vertex_normals g'
    /\ uvs g = uvs g'
    /\ faces g = faces g'
    /\ detail_x g = dx /\ detail_x g' = Z.max dx 3
    /\ detail_y g = dy /\ detail_y g' = Z.max dy 1.
Proof.
  intros b' t' h'.
  assert (Hb : sanitize_bottom_radius b' = b').
  { subst b'. unfold sanitize_bottom_radius.
    destruct (fleb b (of_int 0)) eqn:E; [|now rewrite E].
    destruct (fleb (of_int 1) (of_int 0)); reflexivity. }
  assert (Ht : sanitize_top_radius t' = t').
  { subst t'. unfold sanitize_top_radius.
    destruct (fltb t (of_int 0)) eqn:E; [|now rewrite E].
    destruct (fltb (of_int 0) (of_int 0)); reflexivity. }
  assert (Hh : sanitize_height b' h' = h').
  { unfold sanitize_height. rewrite Hb. subst h'.
    destruct (fleb h (of_int 0)) eqn:E; [|now rewrite E].
    destruct (fleb b' (of_int 0)); reflexivity. }
  do 2 eexists. split; [apply truncated_cone_eq|].
  split; [apply truncated_cone_eq|].
  rewrite Hb, Ht, Hh. unfold sanitize_detail_x, sanitize_detail_y.
  replace (Z.max (Z.max dx 3) 3) with (Z.max dx 3) by lia.
  replace (Z.max (Z.max dy 1) 1) with (Z.max dy 1) by lia.
  repeat split; reflexivity.
Qed.

End FrustumExtras.

(** ** Normals and cap rings of the truncated cone *)

Section FrustumNormals.

Context {F : Type} {N : Num F}.

Lemma nth_error_frustum_normals (b t h : F) (n m : Z) (bc tc : bool)
    (p k : Z) :
  1 <= m -> 0 <= p < ring_count m bc tc -> 0 <= k < n ->
  nth_error (frustum_normals b t h n m bc tc) (Z.to_nat (p * n + k))
  = Some (frustum_normal b t h n m ((if bc then -2 else 0) + p) k).
Proof.
  intros Hm Hp Hk. unfold frustum_normals, frustum_levels.
  replace (Z.to_nat (p * n + k))
    with (Z.to_nat p * Z.to_nat n + Z.to_nat k)%nat by nia.
  rewrite nth_error_flat_map_rows
    with (x := (if bc then -2 else 0) + p).
  - rewrite flat_map_singleton, nth_error_map, nth_error_range by lia.
    cbn. do 2 f_equal. lia.
  - intros y _. rewrite flat_map_singleton, length_map. apply length_range_0.
  - rewrite nth_error_range; [f_equal; lia|].
    unfold ring_count in Hp. destruct bc, tc; lia.
  - lia.
Qed.

(** X4. The normals [truncated_cone] assigns, ring by ring ([n] and [m] are
    the floored detail counts, [t'] the clamped top radius).  With a bottom
    cap, the two cap rings (the first [2 * n] vertices) have the normal
    [(0, -1, 0)].  Every body ring has the slanted side normal
    [(sin theta * cos slant, sin slant, cos theta * cos slant)].  With a top
    cap, the two cap rings (the last [2 * n] vertices) have the normal
    [(0, 1, 0)] only when [t'] is not zero; when [t'] is zero they keep the
    slanted side normal. *)
Theorem truncated_cone_normals (b t h : F) (dx dy : Z) (bc tc : bool) :
  let b' := if fleb b (of_int 0) then of_int 1 else b in
  let t' := if fltb t (of_int 0) then of_int 0 else t in
  let h' := if fleb h (of_int 0) then b' else h in
  let n := Z.max dx 3 in
  let m := Z.max dy 1 in
  let slant := math_atan2 (fsub b' t') h' in
  let side := fun k =>
    let theta := fmul (fmul (of_int 2) math_pi) (int_truediv k n) in
    (fmul (math_sin theta) (math_cos slant), math_sin slant,
     fmul (math_cos theta) (math_cos slant)) in
  let first_body := if bc then 2 else 0 in
  exists g : Geometry,
    truncated_cone b t h dx dy bc tc = Ok g
    /\ (bc = true -> forall p k, 0 <= p < 2 -> 0 <= k < n ->
          nth_error (vertex_normals g) (Z.to_nat (p * n + k))
          = Some (of_int 0, of_int (-1), of_int 0))
    /\ (forall p k, 0 <= p <= m -> 0 <= k < n ->
          nth_error (vertex_normals g) (Z.to_nat ((first_body + p) * n + k))
          = Some (side k))
    /\ (tc = true -> forall p k, 0 <= p < 2 -> 0 <= k < n ->
          nth_error (vertex_normals g)
            (Z.to_nat ((first_body + m + 1 + p) * n + k))
          = Some (if is_zero t' then side k
                  else (of_int 0, of_int 1, of_int 0))).
Proof.
  intros b' t' h' n m slant side first_body.
  eexists. split; [apply truncated_cone_eq|].
  cbn [vertex_normals grow Geometry_new app].
  fold b' t' h'. unfold sanitize_detail_x, sanitize_detail_y. fold n m.
  change (sanitize_bottom_radius b) with b'.
  change (sanitize_top_radius t) with t'.
  change (sanitize_height b h) with h'.
  assert (Hn : 3 <= n) by (subst n; lia).
  assert (Hm : 1 <= m) by (subst m; lia).
  split; [|split].
  - intros -> p k Hp Hk.
    rewrite nth_error_frustum_normals by (unfold ring_count; destruct tc; lia).
    unfold frustum_normal.
    destruct (Z.ltb_spec (-2 + p) 0); [reflexivity | lia].
  - intros p k Hp Hk.
    rewrite nth_error_frustum_normals
      by (subst first_body; unfold ring_count; destruct bc, tc; lia).
    unfold frustum_normal.
    replace ((if bc then -2 else 0) + (first_body + p)) with p
      by (subst first_body; destruct bc; lia).
    destruct (Z.ltb_spec p 0); [lia|].
    destruct (Z.ltb_spec m p); [lia|]. reflexivity.
  - intros -> p k Hp Hk.
    rewrite nth_error_frustum_normals
      by (subst first_body; unfold ring_count; destruct bc; lia).
    unfold frustum_normal.
    replace ((if bc then -2 else 0) + (first_body + m + 1 + p))
      with (m + 1 + p) by (subst first_body; destruct bc; lia).
    destruct (Z.ltb_spec (m + 1 + p) 0); [lia|].
    destruct (Z.ltb_spec m (m + 1 + p)); [|lia].
    destruct (is_zero t'); reflexivity.
Qed.

End FrustumNormals.



(** ** The grids of plane and ellipsoid *)

Lemma nth_error_grid_pairs {A : Type} (dx dy : Z) (a b : Z -> Z -> A)
    (i j : Z) :
  0 <= i <= dy -> 0 <= j <= dx ->
  nth_error (grid_samples dx dy (fun i j => [a i j; b i j]))
    (Z.to_nat (2 * (i * (dx + 1) + j))) = Some (a i j)
  /\ nth_error (grid_samples dx dy (fun i j => [a i j; b i j]))
       (Z.to_nat (2 * (i * (dx + 1) + j) + 1)) = Some (b i j).
Proof.
  intros Hi Hj. unfold grid_samples.
  assert (Hrow : forall y, In y (range 0 (dy + 1)) ->
            length (flat_map (fun j => [a y j; b y j]) (range 0 (dx + 1)))
            = (2 * Z.to_nat (dx + 1))%nat).
  { intros y _.
    rewrite length_flat_map_const with (k := 2%nat) by reflexivity.
    rewrite length_range_0. lia. }
  assert (Hi' : nth_error (range 0 (dy + 1)) (Z.to_nat i) = Some i)
    by (rewrite nth_error_range by lia; f_equal; lia).
  assert (Hj' : nth_error (range 0 (dx + 1)) (Z.to_nat j) = Some j)
    by (rewrite nth_error_range by lia; f_equal; lia).
  split.
  - replace (Z.to_nat (2 * (i * (dx + 1) + j)))
      with (Z.to_nat i * (2 * Z.to_nat (dx + 1)) + (Z.to_nat j * 2 + 0))%nat
      by nia.
    rewrite nth_error_flat_map_rows
      with (n := (2 * Z.to_nat (dx + 1))%nat) (x := i);
      [|exact Hrow | exact Hi' | lia].
    rewrite nth_error_flat_map_rows with (n := 2%nat) (x := j);
      [reflexivity | reflexivity | exact Hj' | lia].
  - replace (Z.to_nat (2 * (i * (dx + 1) + j) + 1))
      with (Z.to_nat i * (2 * Z.to_nat (dx + 1)) + (Z.to_nat j * 2 + 1))%nat
      by nia.
    rewrite nth_error_flat_map_rows
      with (n := (2 * Z.to_nat (dx + 1))%nat) (x := i);
      [|exact Hrow | exact Hi' | lia].
    rewrite nth_error_flat_map_rows with (n := 2%nat) (x := j);
      [reflexivity | reflexivity | exact Hj' | lia].
Qed.

Section Grids.

Context {F : Type} {N : Num F} {D : @Derivations F}.

(** X6. For [detail_x >= 1] and [detail_y >= 1], [plane] returns a mesh of
    [(detail_x + 1) * (detail_y + 1)] vertices.  The vertex of grid cell
    [(i, j)], at index [q = i * (detail_x + 1) + j], is
    [(u - 0.5, v - 0.5, 0)] with [u = j / detail_x] and [v = i / detail_y];
    its UV pair, at [uvs[2q]] and [uvs[2q + 1]], is [(u, v)].  The width and
    the height reach the mesh through the transform only, which scales by
    [(width, height, 1)]. *)
Theorem plane_grid (w h : F) (dx dy : Z) (r : renderer) :
  1 <= dx -> 1 <= dy ->
  exists g : Geometry,
    plane w h dx dy r = Ok (g, r ++ [g])
    /\ len (vertices g) = (dx + 1) * (dy + 1)
    /\ len (uvs g) = 2 * ((dx + 1) * (dy + 1))
    /\ (forall i j, 0 <= i <= dy -> 0 <= j <= dx ->
          let u := int_truediv j dx in
          let v := int_truediv i dy in
          let q := i * (dx + 1) + j in
          nth_error (vertices g) (Z.to_nat q)
          = Some (fsub u lit_0_5, fsub v lit_0_5, of_int 0)
          /\ nth_error (uvs g) (Z.to_nat (2 * q)) = Some u
          /\ nth_error (uvs g) (Z.to_nat (2 * q + 1)) = Some v)
    /\ matrix g = Some (scale_transform w h (of_int 1)).
Proof.
  intros Hdx Hdy. eexists.
  split; [apply draw_on_return_ok, plane_func_eq; lia|].
  unfold compute_normals.
  cbn [vertices vertex_normals uvs matrix grow Geometry_new app set_matrix
         edges_to_vertices make_triangle_edges compute_faces].
  unfold plane_vertices, grid_uvs.
  split; [|split; [|split; [|reflexivity]]].
  - rewrite len_grid_samples with (k := 1%nat) by (reflexivity || lia). lia.
  - rewrite len_grid_samples with (k := 2%nat) by (reflexivity || lia). lia.
  - intros i j Hi Hj. cbv zeta. split.
    + apply (nth_error_grid_samples
               (fun i j => (fsub (int_truediv j dx) lit_0_5,
                            fsub (int_truediv i dy) lit_0_5, of_int 0) : vec3)
               Hi Hj).
    + apply (nth_error_grid_pairs (fun i j => int_truediv j dx)
               (fun i j => int_truediv i dy) Hi Hj).
Qed.

(** X7. For [detail_x >= 1] and [detail_y >= 1], the UV pair [ellipsoid]
    stores for the vertex of grid cell [(i, j)], at [uvs[2q]] and
    [uvs[2q + 1]] with [q = i * (detail_x + 1) + j], is
    [(j / detail_x, i / detail_y)].  The three radii reach the mesh through
    the transform only, which scales by them; for [sphere] it scales by the
    radius along the three axes. *)
Theorem ellipsoid_uvs (rx ry rz radius : F) (dx dy : Z) (r : renderer) :
  1 <= dx -> 1 <= dy ->
  exists g gs : Geometry,
    ellipsoid rx ry rz dx dy r = Ok (g, r ++ [g])
    /\ sphere radius dx dy r = Ok (gs, r ++ [gs])
    /\ len (uvs g) = 2 * len (vertices g)
    /\ (forall i j, 0 <= i <= dy -> 0 <= j <= dx ->
          let q := i * (dx + 1) + j in
          nth_error (uvs g) (Z.to_nat (2 * q)) = Some (int_truediv j dx)
          /\ nth_error (uvs g) (Z.to_nat (2 * q + 1))
             = Some (int_truediv i dy))
    /\ matrix g = Some (scale_transform rx ry rz)
    /\ matrix gs = Some (scale_transform radius radius radius)
    /\ vertices gs = vertices g /\ vertex_normals gs = vertex_normals g
    /\ uvs gs = uvs g.
Proof.
  intros Hdx Hdy. do 2 eexists.
  split; [apply draw_on_return_ok, ellipsoid_func_eq; lia|].
  split; [apply draw_on_return_ok, ellipsoid_func_eq; lia|].
  cbn [vertices vertex_normals uvs matrix grow Geometry_new app set_matrix
         edges_to_vertices make_triangle_edges compute_faces].
  unfold ellipsoid_vertices, grid_uvs.
  split; [|split; [|repeat split]].
  - rewrite len_grid_samples with (k := 2%nat) by (reflexivity || lia).
    rewrite len_grid_samples with (k := 1%nat) by (reflexivity || lia). lia.
  - intros i j Hi Hj. cbv zeta.
    apply (nth_error_grid_pairs (fun i j => int_truediv j dx)
             (fun i j => int_truediv i dy) Hi Hj).
Qed.

End Grids.

(** ** When the grid factories raise *)

Lemma range_nil (lo hi : Z) : hi <= lo -> range lo hi = [].
Proof.
  intros H. unfold range.
  replace (Z.to_nat (hi - lo)) with 0%nat by lia. reflexivity.
Qed.

Lemma grid_samples_empty {A : Type} (dx dy : Z) (f : Z -> Z -> list A) :
  dx <= -1 \/ dy <= -1 -> grid_samples dx dy f = [].
Proof.
  intros [H|H]; unfold grid_samples.
  - rewrite (range_nil (lo := 0) (hi := dx + 1)) by lia. cbn [flat_map].
    apply flat_map_nil.
  - now rewrite (range_nil (lo := 0) (hi := dy + 1)) by lia.
Qed.

Section GridErrors.

Context {F : Type} {N : Num F} {D : @Derivations F}.

(** What [ellipsoid] and [plane] do for each sign of the detail counts. *)
Lemma ellipsoid_plane_outcome (rx ry rz w h : F) (dx dy : Z) :
  (dy = 0 \/ (1 <= dy /\ dx = 0) ->
     ellipsoid_func rx ry rz dx dy = Raise ZeroDivisionError
     /\ plane_func w h dx dy = Raise ZeroDivisionError)
  /\ (dy <= -1 \/ (1 <= dy /\ dx <> 0) ->
        exists g gp : Geometry,
          ellipsoid_func rx ry rz dx dy = Ok g
          /\ plane_func w h dx dy = Ok gp
          /\ (dy <= -1 \/ dx <= -1 ->
                vertices g = [] /\ vertex_normals g = [] /\ uvs g = []
                /\ vertices gp = [] /\ uvs gp = [])).
Proof.
  split.
  - intros [-> | [Hdy ->]].
    + split; reflexivity.
    + unfold ellipsoid_func, plane_func.
      rewrite (range_cons (lo := 0) (hi := dy + 1)) by lia.
      cbn [for_each]. rewrite truediv_int_ok by lia.
      split; reflexivity.
  - intros H. destruct (Z.eq_dec dx 0) as [-> | Hdx].
    + assert (Hdy : dy <= -1) by lia.
      unfold ellipsoid_func, plane_func.
      rewrite (range_nil (lo := 0) (hi := dy + 1)) by lia.
      do 2 eexists. split; [reflexivity|]. split; [reflexivity|].
      intros _. repeat split; reflexivity.
    + assert (Hdy : dy <> 0) by lia.
      do 2 eexists.
      split; [apply ellipsoid_func_eq; assumption|].
      split; [apply plane_func_eq; assumption|].
      intros Hneg. unfold compute_normals.
      cbn [vertices vertex_normals uvs grow Geometry_new app set_matrix
             edges_to_vertices make_triangle_edges compute_faces].
      unfold ellipsoid_vertices, plane_vertices, grid_uvs.
      rewrite !grid_samples_empty by tauto.
      repeat split; reflexivity.
Qed.

(** X8. [ellipsoid] and [plane] raise [ZeroDivisionError] exactly when
    [detail_y = 0], or [detail_y >= 1] and [detail_x = 0]; they raise no
    other exception, and [sphere] raises as [ellipsoid] does.  For a
    negative [detail_y], or [detail_y >= 1] with a negative [detail_x],
    they return a mesh without vertices and without UVs. *)
Theorem ellipsoid_plane_raise (rx ry rz radius w h : F) (dx dy : Z)
    (r : renderer) :
  (ellipsoid rx ry rz dx dy r = Raise ZeroDivisionError
   <-> dy = 0 \/ (1 <= dy /\ dx = 0))
  /\ (sphere radius dx dy r = Raise ZeroDivisionError
      <-> dy = 0 \/ (1 <= dy /\ dx = 0))
  /\ (plane w h dx dy r = Raise ZeroDivisionError
      <-> dy = 0 \/ (1 <= dy /\ dx = 0))
  /\ (forall e, ellipsoid rx ry rz dx dy r = Raise e
                \/ plane w h dx dy r = Raise e -> e = ZeroDivisionError)
  /\ (dy <= -1 \/ (1 <= dy /\ dx <= -1) ->
        exists g gp : Geometry,
          ellipsoid rx ry rz dx dy r = Ok (g, r ++ [g])
          /\ plane w h dx dy r = Ok (gp, r ++ [gp])
          /\ vertices g = [] /\ vertex_normals g = [] /\ uvs g = []
          /\ vertices gp = [] /\ uvs gp = []).
Proof.
  assert (Hcases : (dy = 0 \/ (1 <= dy /\ dx = 0))
                   \/ (dy <= -1 \/ (1 <= dy /\ dx <> 0))) by lia.
  assert (Hell : forall rx ry rz,
             ellipsoid rx ry rz dx dy r = Raise ZeroDivisionError
             <-> dy = 0 \/ (1 <= dy /\ dx = 0)).
  { intros rx' ry' rz'.
    destruct (ellipsoid_plane_outcome rx' ry' rz' w h dx dy) as [Hr Hok].
    unfold ellipsoid, _draw_on_return. split.
    - intros He. destruct Hcases as [Hc|Hc]; [exact Hc|].
      destruct (Hok Hc) as (g & gp & Hg & _). rewrite Hg in He. discriminate.
    - intros Hc. destruct (Hr Hc) as [-> _]. reflexivity. }
  destruct (ellipsoid_plane_outcome rx ry rz w h dx dy) as [Hr Hok].
  split; [apply Hell|]. split; [apply Hell|]. split; [|split].
  - unfold plane, _draw_on_return. split.
    + intros He. destruct Hcases as [Hc|Hc]; [exact Hc|].
      destruct (Hok Hc) as (g & gp & _ & Hg & _). rewrite Hg in He.
      discriminate.
    + intros Hc. destruct (Hr Hc) as [_ ->]. reflexivity.
  - intros e. unfold ellipsoid, plane, _draw_on_return.
    destruct Hcases as [Hc|Hc].
    + destruct (Hr Hc) as [-> ->]. cbn. intros [H|H]; congruence.
    + destruct (Hok Hc) as (g & gp & -> & -> & _). cbn.
      intros [H|H]; discriminate.
  - intros Hneg.
    destruct Hok as (g & gp & Hg & Hgp & Hempty); [lia|].
    exists g, gp.
    split; [apply draw_on_return_ok; exact Hg|].
    split; [apply draw_on_return_ok; exact Hgp|].
    apply Hempty. lia.
Qed.

(** What [torus] does for each sign of the detail counts. *)
Lemma torus_func_outcome (radius tube_radius : F) (dx dy : Z) :
  (is_zero radius = true ->
     torus_func radius tube_radius dx dy = Raise ZeroDivisionError)
  /\ (is_zero radius = false ->
        (dy = 0 \/ (1 <= dy /\ dx = 0) ->
           torus_func radius tube_radius dx dy = Raise ZeroDivisionError)
        /\ (1 <= dy /\ dx <= -1 ->
              torus_func radius tube_radius dx dy = Raise NameError)
        /\ (dy <= -1 ->
              exists g : Geometry,
                torus_func radius tube_radius dx dy = Ok g
                /\ vertices g = [] /\ vertex_normals g = [] /\ uvs g = [])
        /\ (1 <= dy /\ 1 <= dx ->
              exists g : Geometry,
                torus_func radius tube_radius dx dy = Ok g)).
Proof.
  split.
  - intros Hr. unfold torus_func, truediv. now rewrite Hr.
  - intros Hr. unfold torus_func, truediv. rewrite Hr. cbn [bind].
    split; [|split; [|split]].
    + intros [-> | [Hdy ->]]; [reflexivity|].
      rewrite (range_cons (lo := 0) (hi := dy + 1)) by lia.
      cbn [for_each]. rewrite truediv_int_ok by lia. reflexivity.
    + intros [Hdy Hdx].
      rewrite (range_cons (lo := 0) (hi := dy + 1)) by lia.
      cbn [for_each]. rewrite truediv_int_ok by lia. cbn [bind].
      rewrite (range_nil (lo := 0) (hi := dx + 1)) by lia. reflexivity.
    + intros Hdy.
      rewrite (range_nil (lo := 0) (hi := dy + 1)) by lia.
      eexists. split; [reflexivity|]. repeat split; reflexivity.
    + intros [Hdy Hdx]. eexists.
      assert (Hdy' : dy <> 0) by lia.
      pose proof (@torus_func_eq F N D radius tube_radius dx dy Hr Hdx Hdy')
        as H.
      unfold torus_func, truediv in H. rewrite Hr in H. exact H.
Qed.

(** X9. [torus] raises [ZeroDivisionError] exactly when the radius is zero,
    or [detail_y = 0], or [detail_y >= 1] and [detail_x = 0].  It raises
    [NameError] exactly when the radius is not zero, [detail_y >= 1] and
    [detail_x] is negative: the inner loop does not run, and the statements
    after it read [cosTheta], which no iteration has assigned.  It raises
    nothing else; for a radius that is not zero and a negative [detail_y]
    it returns a mesh without vertices, normals or UVs. *)
Theorem torus_raise (radius tube_radius : F) (dx dy : Z) (r : renderer) :
  (torus radius tube_radius dx dy r = Raise ZeroDivisionError
   <-> is_zero radius = true \/ dy = 0 \/ (1 <= dy /\ dx = 0))
  /\ (torus radius tube_radius dx dy r = Raise NameError
      <-> is_zero radius = false /\ 1 <= dy /\ dx <= -1)
  /\ torus radius tube_radius dx dy r <> Raise IndexError
  /\ (is_zero radius = false /\ dy <= -1 ->
        exists g : Geometry,
          torus radius tube_radius dx dy r = Ok (g, r ++ [g])
          /\ vertices g = [] /\ vertex_normals g = [] /\ uvs g = []).
Proof.
  destruct (torus_func_outcome radius tube_radius dx dy) as [Hz Hnz].
  unfold torus, _draw_on_return.
  assert (Hcases : (dy = 0 \/ (1 <= dy /\ dx = 0)) \/ (1 <= dy /\ dx <= -1)
                   \/ dy <= -1 \/ (1 <= dy /\ 1 <= dx)) by lia.
  destruct (is_zero radius) eqn:Hr;
    [ rewrite (Hz eq_refl)
    | destruct (Hnz eq_refl) as (Hzd & Hname & Hempty & Hok);
      destruct Hcases as [Hc|[Hc|[Hc|Hc]]];
      [ rewrite (Hzd Hc) | rewrite (Hname Hc)
      | destruct (Hempty Hc) as (g & -> & Hv & Hn & Hu)
      | destruct (Hok Hc) as (g & ->) ] ];
    cbn [bind];
    (split; [|split; [|split]]);
    try (split; intros);
    try (intros; discriminate);
    repeat match goal with
           | H : _ /\ _ |- _ => destruct H
           | H : _ \/ _ |- _ => destruct H
           end;
    try discriminate; try lia; auto.
  exists g. repeat split; assumption.
Qed.

End GridErrors.

(** ** What the torus stores *)

Lemma nth_error_flat_map_range {A : Type} (f : Z -> A) (n i : Z) :
  0 <= i < n ->
  nth_error (flat_map (fun i => [f i]) (range 0 n)) (Z.to_nat i) = Some (f i).
Proof.
  intros Hi. rewrite flat_map_singleton, nth_error_map, nth_error_range by lia.
  cbn. do 2 f_equal. lia.
Qed.

Lemma nth_error_flat_map_range_pairs {A : Type} (a b : Z -> A) (n i : Z) :
  0 <= i < n ->
  nth_error (flat_map (fun i => [a i; b i]) (range 0 n)) (Z.to_nat (2 * i))
  = Some (a i)
  /\ nth_error (flat_map (fun i => [a i; b i]) (range 0 n))
       (Z.to_nat (2 * i + 1)) = Some (b i).
Proof.
  intros Hi.
  assert (Hi' : nth_error (range 0 n) (Z.to_nat i) = Some i)
    by (rewrite nth_error_range by lia; f_equal; lia).
  split.
  - replace (Z.to_nat (2 * i)) with (Z.to_nat i * 2 + 0)%nat by lia.
    rewrite nth_error_flat_map_rows with (n := 2%nat) (x := i);
      [reflexivity | reflexivity | exact Hi' | lia].
  - replace (Z.to_nat (2 * i + 1)) with (Z.to_nat i * 2 + 1)%nat by lia.
    rewrite nth_error_flat_map_rows with (n := 2%nat) (x := i);
      [reflexivity | reflexivity | exact Hi' | lia].
Qed.

Section TorusGrid.

Context {F : Type} {N : Num F} {D : @Derivations F}.

(** X10. For a radius that is not zero, [detail_x >= 1] and
    [detail_y >= 1], [torus] stores, with [rho = tube_radius / radius],
    [phi_i = 2 * pi * (i / detail_y)] and
    [theta_j = 2 * pi * (j / detail_x)]: at vertex index
    [i * (detail_x + 1) + j] the point
    [((1 + rho * cos phi_i) * cos theta_j,
      (1 + rho * cos phi_i) * sin theta_j, rho * sin phi_i)];
    and per row [i] one normal, at index [i], taken at the last azimuth
    sample [theta = 2 * pi * (detail_x / detail_x)], and one UV pair, at
    [uvs[2i]] and [uvs[2i + 1]], equal to
    [(detail_x / detail_x, i / detail_y)].  The transform scales by the
    radius along the three axes. *)
Theorem torus_grid (radius tube_radius : F) (dx dy : Z) (r : renderer) :
  is_zero radius = false -> 1 <= dx -> 1 <= dy ->
  let rho := fdiv tube_radius radius in
  let phi := fun i => fmul (fmul (of_int 2) math_pi) (int_truediv i dy) in
  let theta := fun j => fmul (fmul (of_int 2) math_pi) (int_truediv j dx) in
  exists g : Geometry,
    torus radius tube_radius dx dy r = Ok (g, r ++ [g])
    /\ (forall i j, 0 <= i <= dy -> 0 <= j <= dx ->
          nth_error (vertices g) (Z.to_nat (i * (dx + 1) + j))
          = Some (fmul (fadd (of_int 1) (fmul rho (math_cos (phi i))))
                    (math_cos (theta j)),
                  fmul (fadd (of_int 1) (fmul rho (math_cos (phi i))))
                    (math_sin (theta j)),
                  fmul rho (math_sin (phi i))))
    /\ (forall i, 0 <= i <= dy ->
          nth_error (vertex_normals g) (Z.to_nat i)
          = Some (fmul (math_cos (phi i)) (math_cos (theta dx)),
                  fmul (math_cos (phi i)) (math_sin (theta dx)),
                  math_sin (phi i))
          /\ nth_error (uvs g) (Z.to_nat (2 * i)) = Some (int_truediv dx dx)
          /\ nth_error (uvs g) (Z.to_nat (2 * i + 1))
             = Some (int_truediv i dy))
    /\ matrix g = Some (scale_transform radius radius radius).
Proof.
  intros Hr Hdx Hdy rho phi theta. eexists.
  split; [apply draw_on_return_ok, torus_func_eq; (assumption || lia)|].
  cbn [vertices vertex_normals uvs matrix grow Geometry_new app set_matrix
         edges_to_vertices make_triangle_edges compute_faces].
  split; [|split; [|reflexivity]].
  - intros i j Hi Hj. unfold torus_vertices.
    apply (nth_error_grid_samples
             (fun i j => torus_point rho (int_truediv j dx) (int_truediv i dy))
             Hi Hj).
  - intros i Hi. split.
    + unfold torus_normals.
      apply (nth_error_flat_map_range (torus_row_normal dx dy) (n := dy + 1)).
      lia.
    + unfold torus_uvs.
      apply (nth_error_flat_map_range_pairs (fun _ => int_truediv dx dx)
               (fun i => int_truediv i dy) (n := dy + 1)).
      lia.
Qed.

End TorusGrid.

(** ** Drawing on return *)

Section Drawing.

Context {F : Type} {N : Num F} {D : @Derivations F}.



(** X12. The requested size reaches a mesh through its transform only.
    [cylinder] and [cone] return the same vertices, normals, UVs and faces
    for any two radii and heights, with the transform scaling by
    [(radius, height, radius)].  Two calls of [ellipsoid], or of [plane],
    that differ in the radii, or in the width and height, either raise the
    same exception or return the same vertices, normals, UVs and faces,
    with the transforms scaling by [(radius_x, radius_y, radius_z)] and by
    [(width, height, 1)]; [box] attaches the scale by
    [(width, height, depth)]. *)
Theorem size_only_in_transform (radius height radius' height' : F)
    (rx ry rz rx' ry' rz' w h w' h' d : F) (dx dy : Z) (tc bc : bool)
    (r : renderer) :
  (exists g g' : Geometry,
     cylinder radius height dx dy tc bc r = Ok (g, r ++ [g])
     /\ cylinder radius' height' dx dy tc bc r = Ok (g', r ++ [g'])
     /\ vertices g = vertices g' /\ vertex_normals g = vertex_normals g'
     /\ uvs g = uvs g' /\ faces g = faces g'
     /\ matrix g = Some (scale_transform radius height radius))
  /\ (exists g g' : Geometry,
        cone radius height dx dy bc r = Ok (g, r ++ [g])
        /\ cone radius' height' dx dy bc r = Ok (g', r ++ [g'])
        /\ vertices g = vertices g' /\ vertex_normals g = vertex_normals g'
        /\ uvs g = uvs g' /\ faces g = faces g'
        /\ matrix g = Some (scale_transform radius height radius))
  /\ match ellipsoid rx ry rz dx dy r, ellipsoid rx' ry' rz' dx dy r with
     | Ok (g, _), Ok (g', _) =>
         vertices g = vertices g' /\ vertex_normals g = vertex_normals g'
         /\ uvs g = uvs g' /\ faces g = faces g'
         /\ matrix g = Some (scale_transform rx ry rz)
     | Raise e, Raise e' => e = e'
     | _, _ => False
     end
  /\ match plane w h dx dy r, plane w' h' dx dy r with
     | Ok (g, _), Ok (g', _) =>
         vertices g = vertices g' /\ vertex_normals g = vertex_normals g'
         /\ uvs g = uvs g' /\ faces g = faces g'
         /\ matrix g = Some (scale_transform w h (of_int 1))
     | Raise e, Raise e' => e = e'
     | _, _ => False
     end
  /\ exists g : Geometry,
       box w h d dx dy r = Ok (g, r ++ [g])
       /\ matrix g = Some (scale_transform w h d).
Proof.
  split.
  { do 2 eexists.
    split; [apply draw_on_return_ok, cylinder_func_eq|].
    split; [apply draw_on_return_ok, cylinder_func_eq|].
    repeat split; reflexivity. }
  split.
  { do 2 eexists.
    split; [apply draw_on_return_ok, cone_func_eq|].
    split; [apply draw_on_return_ok, cone_func_eq|].
    repeat split; reflexivity. }
  split.
  { unfold ellipsoid, _draw_on_return, ellipsoid_func.
    destruct (for_each (range 0 (dy + 1)) (Geometry_new dx dy) _)
      as [geom|e]; cbn; repeat split; reflexivity. }
  split.
  { unfold plane, _draw_on_return, plane_func.
    destruct (for_each (range 0 (dy + 1)) (Geometry_new dx dy) _)
      as [geom|e]; cbn; repeat split; reflexivity. }
  eexists. split; [apply draw_on_return_ok, box_func_eq|]. reflexivity.
Qed.

End Drawing.

(** ** The canonical shapes in exact real arithmetic *)

Ltac eval_int_literals :=
  repeat match goal with
         | |- context [IZR ?z] =>
             lazymatch z with
             | Z0 => fail
             | Zpos _ => fail
             | Zneg _ => fail
             | _ => let v := eval vm_compute in z in change z with v
             end
         end.

(** X13. Over the reals, whatever its arguments, [box] returns the unit
    cube centred at the origin, face by face in the order the comments of
    [cube_indices] give: the four vertices of face 0 lie in the plane
    [x = -1/2], those of face 1 in [x = 1/2], then [y = -1/2], [y = 1/2],
    [z = -1/2] and [z = 1/2]; every coordinate is [-1/2] or [1/2]; and the
    four vertices of each face carry the UV pairs
    [(0, 0), (1, 0), (0, 1), (1, 1)]. *)
Theorem box_unit_cube_real (D : @Derivations R) (w h d : R) (dx dy : Z)
    (r : renderer) :
  exists g : Geometry,
    box w h d dx dy r = Ok (g, r ++ [g])
    /\ vertices g
       = [ (-1/2, -1/2, -1/2); (-1/2, -1/2, 1/2);
           (-1/2, 1/2, -1/2); (-1/2, 1/2, 1/2);
           (1/2, -1/2, -1/2); (1/2, 1/2, -1/2);
           (1/2, -1/2, 1/2); (1/2, 1/2, 1/2);
           (-1/2, -1/2, -1/2); (1/2, -1/2, -1/2);
           (-1/2, -1/2, 1/2); (1/2, -1/2, 1/2);
           (-1/2, 1/2, -1/2); (-1/2, 1/2, 1/2);
           (1/2, 1/2, -1/2); (1/2, 1/2, 1/2);
           (-1/2, -1/2, -1/2); (-1/2, 1/2, -1/2);
           (1/2, -1/2, -1/2); (1/2, 1/2, -1/2);
           (-1/2, -1/2, 1/2); (1/2, -1/2, 1/2);
           (-1/2, 1/2, 1/2); (1/2, 1/2, 1/2) ]%R
    /\ uvs g
       = flat_map (fun _ : Z => [0; 0; 1; 0; 0; 1; 1; 1]%R)
           [0; 1; 2; 3; 4; 5].
Proof.
  eexists. split; [apply draw_on_return_ok, box_func_eq|].
  unfold compute_normals.
  cbn [vertices vertex_normals uvs set_matrix make_triangle_edges].
  unfold box_vertices, box_uvs, octant.
  cbn [map concat cube_indices app flat_map
         of_int int_truediv fsub fdiv RNum].
  split; repeat (f_equal; try (eval_int_literals; lra)).
Qed.







(** ** UVs and cap centres of the truncated cone *)

Lemma nth_error_rows_pairs {A : Type} (a b : Z -> Z -> A) (l : list Z)
    (n : Z) (p : nat) (yy k : Z) :
  nth_error l p = Some yy -> 0 <= k < n ->
  nth_error (flat_map (fun y => flat_map (fun x => [a y x; b y x]) (range 0 n)) l)
    (Z.to_nat (2 * (Z.of_nat p * n + k))) = Some (a yy k)
  /\ nth_error (flat_map (fun y => flat_map (fun x => [a y x; b y x]) (range 0 n)) l)
       (Z.to_nat (2 * (Z.of_nat p * n + k) + 1)) = Some (b yy k).
Proof.
  intros Hp Hk.
  assert (Hrow : forall y, In y l ->
            length (flat_map (fun x => [a y x; b y x]) (range 0 n))
            = (2 * Z.to_nat n)%nat).
  { intros y _.
    rewrite length_flat_map_const with (k := 2%nat) by reflexivity.
    rewrite length_range_0. lia. }
  assert (Hk' : nth_error (range 0 n) (Z.to_nat k) = Some k)
    by (rewrite nth_error_range by lia; f_equal; lia).
  split.
  - replace (Z.to_nat (2 * (Z.of_nat p * n + k)))
      with (p * (2 * Z.to_nat n) + (Z.to_nat k * 2 + 0))%nat by nia.
    rewrite nth_error_flat_map_rows
      with (n := (2 * Z.to_nat n)%nat) (x := yy);
      [|exact Hrow | exact Hp | lia].
    rewrite nth_error_flat_map_rows with (n := 2%nat) (x := k);
      [reflexivity | reflexivity | exact Hk' | lia].
  - replace (Z.to_nat (2 * (Z.of_nat p * n + k) + 1))
      with (p * (2 * Z.to_nat n) + (Z.to_nat k * 2 + 1))%nat by nia.
    rewrite nth_error_flat_map_rows
      with (n := (2 * Z.to_nat n)%nat) (x := yy);
      [|exact Hrow | exact Hp | lia].
    rewrite nth_error_flat_map_rows with (n := 2%nat) (x := k);
      [reflexivity | reflexivity | exact Hk' | lia].
Qed.

Lemma length_filter_map {A B : Type} (p : B -> bool) (f : A -> B)
    (l : list A) :
  length (filter p (map f l)) = length (filter (fun x => p (f x)) l).
Proof.
  induction l as [|x l IH]; cbn; [reflexivity|].
  destruct (p (f x)); cbn; now rewrite IH.
Qed.

Lemma length_filter_eqb (l : list Z) (a : Z) :
  NoDup l -> In a l -> length (filter (fun x => x =? a) l) = 1%nat.
Proof.
  intros Hl. induction Hl as [|x l Hx Hl IH]; intros Ha; [destruct Ha|].
  cbn [filter]. destruct (Z.eqb_spec x a) as [->|Hne].
  - cbn [length]. f_equal. rewrite filter_none; [reflexivity|].
    intros y Hy. destruct (Z.eqb_spec y a) as [->|]; [contradiction | reflexivity].
  - apply IH. destruct Ha; [contradiction | assumption].
Qed.

Section FrustumCaps.

Context {F : Type} {N : Num F}.

(** X16. The UV pair [truncated_cone] stores for vertex [k] of the ring at
    position [p] of the stack, at [uvs[2q]] and [uvs[2q + 1]] with
    [q = p * n + k] ([n] and [m] the floored detail counts): [u] is
    [k / n]; [v] is 0 on the two rings of a bottom cap, 1 on the two rings
    of a top cap, and [yy / m] on the body ring of level [yy]. *)
Theorem truncated_cone_uvs (b t h : F) (dx dy : Z) (bc tc : bool) :
  let n := Z.max dx 3 in
  let m := Z.max dy 1 in
  exists g : Geometry,
    truncated_cone b t h dx dy bc tc = Ok g
    /\ forall p k, 0 <= p < ring_count m bc tc -> 0 <= k < n ->
         let yy := (if bc then -2 else 0) + p in
         nth_error (uvs g) (Z.to_nat (2 * (p * n + k)))
         = Some (int_truediv k n)
         /\ nth_error (uvs g) (Z.to_nat (2 * (p * n + k) + 1))
            = Some (if yy <? 0 then of_int 0
                    else if m <? yy then of_int 1
                    else int_truediv yy m).
Proof.
  intros n m. eexists. split; [apply truncated_cone_eq|].
  cbn [uvs grow Geometry_new app].
  unfold sanitize_detail_x, sanitize_detail_y. fold n m.
  intros p k Hp Hk.
  assert (Hm : 1 <= m) by (subst m; lia).
  assert (Hlev : nth_error (frustum_levels m bc tc) (Z.to_nat p)
                 = Some ((if bc then -2 else 0) + p)).
  { unfold frustum_levels. rewrite nth_error_range; [f_equal; lia|].
    unfold ring_count in Hp. destruct bc, tc; lia. }
  pose proof (@nth_error_rows_pairs F (fun _ x => int_truediv x n)
                (fun y _ => ring_v m y) _ n _ _ k Hlev Hk) as H.
  rewrite Z2Nat.id in H by lia. exact H.
Qed.

End FrustumCaps.

(** X17. The two caps of [truncated_cone] use their centre rings
    differently ([n] the floored [detail_x], [V] the number of vertices).
    With a bottom cap, every vertex [jj < n] of the centre ring is a corner
    of exactly one triangle.  With a top cap, all [n] cap triangles meet in
    the first vertex of the centre ring, at index [V - n], and the other
    [n - 1] vertices of that ring are corners of no triangle. *)
Theorem truncated_cone_cap_centres {F : Type} {N : Num F} (b t h : F)
    (dx dy : Z) (bc tc : bool) :
  let n := Z.max dx 3 in
  exists g : Geometry,
    truncated_cone b t h dx dy bc tc = Ok g
    /\ (bc = true -> forall jj, 0 <= jj < n ->
          triangles_touching (faces g) jj 1 = 1%nat)
    /\ (tc = true ->
          triangles_touching (faces g) (len (vertices g) - n) 1 = Z.to_nat n
          /\ triangles_touching (faces g) (len (vertices g) - n + 1) (n - 1)
             = 0%nat).
Proof.
  intros n. eexists. split; [apply truncated_cone_eq|].
  cbn [vertices faces grow Geometry_new app].
  unfold sanitize_detail_x, sanitize_detail_y. fold n.
  set (m := Z.max dy 1).
  assert (Hn : 3 <= n) by (subst n; lia).
  assert (Hm : 1 <= m) by (subst m; lia).
  rewrite length_frustum_vertices by lia.
  unfold triangles_touching, frustum_faces, ring_count.
  split.
  - intros -> jj Hjj. rewrite !filter_app, !length_app.
    rewrite (filter_none (face_touches jj 1) (body_faces n m (n * 2))).
    + match goal with
      | |- context [filter ?p (if tc then ?a else ?b)] =>
          rewrite (filter_none p (if tc then a else b))
      end.
      * cbn [length]. rewrite !Nat.add_0_r.
        unfold bottom_cap_faces. rewrite flat_map_singleton, length_filter_map.
        rewrite (filter_ext_in _ (fun x => x =? jj)).
        -- apply length_filter_eqb; [apply NoDup_range | apply in_range; lia].
        -- intros x Hx. apply in_range in Hx.
           pose proof (next_bound x (n := n) ltac:(lia)).
           unfold face_touches, in_ring. decide_bounds;
             destruct (Z.eqb_spec x jj); cbn; try reflexivity; lia.
      * intros f Hf. destruct tc; [|destruct Hf].
        apply in_top_cap_faces in Hf as (ii & Hii & ->).
        pose proof (next_bound ii (n := n) ltac:(lia)).
        unfold face_touches, in_ring. decide_bounds; cbn; try reflexivity; nia.
    + intros f Hf. apply in_body_faces in Hf as (r & Hr & Hf).
      apply in_segment_faces in Hf as (ii & Hii & Hf).
      pose proof (next_bound ii (n := n) ltac:(lia)).
      unfold face_touches, in_ring.
      destruct Hf as [-> | ->]; decide_bounds; cbn; try reflexivity; nia.
  - intros ->. rewrite !filter_app, !length_app.
    assert (Hbot : forall s w, (m + 1 + (if bc then 2 else 0) + 2) * n - n <= s ->
              filter (face_touches s w) (if bc then bottom_cap_faces n else [])
              = []).
    { intros s w Hs. apply filter_none. intros f Hf.
      destruct bc; [|destruct Hf].
      apply in_bottom_cap_faces in Hf as (jj & Hjj & ->).
      pose proof (next_bound jj (n := n) ltac:(lia)).
      unfold face_touches, in_ring. decide_bounds; cbn; try reflexivity; nia. }
    assert (Hbody : forall s w, (m + 1 + (if bc then 2 else 0) + 2) * n - n <= s ->
              filter (face_touches s w)
                (body_faces n m (if bc then n * 2 else 0)) = []).
    { intros s w Hs. apply filter_none. intros f Hf.
      apply in_body_faces in Hf as (r & Hr & Hf).
      apply in_segment_faces in Hf as (ii & Hii & Hf).
      pose proof (next_bound ii (n := n) ltac:(lia)).
      unfold face_touches, in_ring.
      destruct Hf as [-> | ->]; destruct bc; decide_bounds; cbn;
        try reflexivity; nia. }
    rewrite !Hbot, !Hbody by lia. cbn [length]. split.
    + rewrite filter_all; [rewrite length_top_cap_faces; lia|].
      intros f Hf. apply in_top_cap_faces in Hf as (ii & Hii & ->).
      pose proof (next_bound ii (n := n) ltac:(lia)).
      unfold face_touches, in_ring.
      destruct bc; decide_bounds; cbn; try reflexivity; nia.
    + rewrite filter_none; [reflexivity|].
      intros f Hf. apply in_top_cap_faces in Hf as (ii & Hii & ->).
      pose proof (next_bound ii (n := n) ltac:(lia)).
      unfold face_touches, in_ring.
      destruct bc; decide_bounds; cbn; try reflexivity; nia.
Qed.

(** ** Instances of the further properties over the reals *)

(** The grid of [plane(2, 3, 2, 1)]. *)
Lemma plane_grid_witness :
  exists g : Geometry,
    plane (N := RNum) (D := GridDerivations) 2%R 3%R 2 1 []
    = Ok (g, [] ++ [g])
    /\ len (vertices g) = (2 + 1) * (1 + 1)
    /\ len (uvs g) = 2 * ((2 + 1) * (1 + 1))
    /\ (forall i j, 0 <= i <= 1 -> 0 <= j <= 2 ->
          let u := int_truediv j 2 in
          let v := int_truediv i 1 in
          let q := i * (2 + 1) + j in
          nth_error (vertices g) (Z.to_nat q)
          = Some (fsub u lit_0_5, fsub v lit_0_5, of_int 0)
          /\ nth_error (uvs g) (Z.to_nat (2 * q)) = Some u
          /\ nth_error (uvs g) (Z.to_nat (2 * q + 1)) = Some v)
    /\ matrix g = Some (scale_transform 2%R 3%R (of_int 1)).
Proof.
  apply (plane_grid (N := RNum) (D := GridDerivations)); lia.
Defined.

(** The UVs of [ellipsoid(1, 2, 3, 4, 2)] and [sphere(5, 4, 2)]. *)
Lemma ellipsoid_uvs_witness :
  exists g gs : Geometry,
    ellipsoid (N := RNum) (D := GridDerivations) 1%R 2%R 3%R 4 2 []
    = Ok (g, [] ++ [g])
    /\ sphere 5%R 4 2 [] = Ok (gs, [] ++ [gs])
    /\ len (uvs g) = 2 * len (vertices g)
    /\ (forall i j, 0 <= i <= 2 -> 0 <= j <= 4 ->
          let q := i * (4 + 1) + j in
          nth_error (uvs g) (Z.to_nat (2 * q)) = Some (int_truediv j 4)
          /\ nth_error (uvs g) (Z.to_nat (2 * q + 1))
             = Some (int_truediv i 2))
    /\ matrix g = Some (scale_transform 1%R 2%R 3%R)
    /\ matrix gs = Some (scale_transform 5%R 5%R 5%R)
    /\ vertices gs = vertices g /\ vertex_normals gs = vertex_normals g
    /\ uvs gs = uvs g.
Proof.
  apply (ellipsoid_uvs (N := RNum) (D := GridDerivations)); lia.
Defined.

(** What [torus(50, 10, 4, 2)] stores. *)
Lemma torus_grid_witness :
  exists g : Geometry,
    let rho := fdiv 10%R 50%R in
    let phi := fun i => fmul (fmul (of_int 2) math_pi) (int_truediv i 2) in
    let theta := fun j => fmul (fmul (of_int 2) math_pi) (int_truediv j 4) in
    torus (N := RNum) (D := GridDerivations) 50%R 10%R 4 2 []
    = Ok (g, [] ++ [g])
    /\ (forall i j, 0 <= i <= 2 -> 0 <= j <= 4 ->
          nth_error (vertices g) (Z.to_nat (i * (4 + 1) + j))
          = Some (fmul (fadd (of_int 1) (fmul rho (math_cos (phi i))))
                    (math_cos (theta j)),
                  fmul (fadd (of_int 1) (fmul rho (math_cos (phi i))))
                    (math_sin (theta j)),
                  fmul rho (math_sin (phi i))))
    /\ (forall i, 0 <= i <= 2 ->
          nth_error (vertex_normals g) (Z.to_nat i)
          = Some (fmul (math_cos (phi i)) (math_cos (theta 4)),
                  fmul (math_cos (phi i)) (math_sin (theta 4)),
                  math_sin (phi i))
          /\ nth_error (uvs g) (Z.to_nat (2 * i)) = Some (int_truediv 4 4)
          /\ nth_error (uvs g) (Z.to_nat (2 * i + 1))
             = Some (int_truediv i 2))
    /\ matrix g = Some (scale_transform 50%R 50%R 50%R).
Proof.
  apply (torus_grid (N := RNum) (D := GridDerivations));
    [apply (is_zero_IZR (z := 50)); lia | lia | lia].
Defined.

